(** * Witness exchange in bor: compressed witness codec and paged witness requests

    Shallow embedding of
    - core/stateless/encoding.go  (EncodeRLP, EncodeCompressed, DecodeCompressed,
      the compression metrics), and
    - eth/peer.go  (RequestWitnesses, receiveWitnessPage, reconstructWitness,
      buildWitnessRequests, doWitnessRequest, ethWitRequest.Close).

    The RLP codec, gzip, sort.Slice and the order in which Go ranges over a map
    are collaborators of that code; they are section variables here, and every
    theorem says which of their properties it relies on. *)

From Stdlib Require Import ZArith List Lia Permutation Sorted.
From Stdlib.Strings Require Import Byte.
From stdpp Require Import gmap list.
Import ListNotations.

Open Scope Z_scope.

(** ** Bytes *)

#[global] Instance byte_eq_dec : EqDecision byte := Byte.byte_eq_dec.

Definition byte_of_N (n : N) : byte :=
  match Byte.of_N n with Some b => b | None => x00 end.

Lemma byte_of_to_N (b : byte) : byte_of_N (Byte.to_N b) = b.
Proof. unfold byte_of_N. now rewrite Byte.of_to_N. Qed.

#[global] Instance byte_countable : Countable byte :=
  inj_countable' Byte.to_N byte_of_N byte_of_to_N.

(** Go's [len] of a slice, as an [int]. *)
Definition len {A} (l : list A) : Z := Z.of_nat (length l).

(** ** Machine integers *)

(** An [int64] result: the mathematical value reduced to [-2^63, 2^63). *)
Definition wrap64 (z : Z) : Z := (z + 2 ^ 63) mod 2 ^ 64 - 2 ^ 63.

Definition max_int64 : Z := 2 ^ 63 - 1.

(** [int(x)] for [x : uint64] on a 64-bit platform. *)
Definition int_of_uint64 (x : Z) : Z := wrap64 x.

Lemma wrap64_small z : - 2 ^ 63 <= z <= max_int64 -> wrap64 z = z.
Proof.
  unfold wrap64, max_int64. intros H.
  rewrite Z.mod_small by lia. lia.
Qed.

Lemma wrap64_add_l a b : wrap64 (wrap64 a + b) = wrap64 (a + b).
Proof.
  unfold wrap64.
  replace ((a + 2 ^ 63) mod 2 ^ 64 - 2 ^ 63 + b + 2 ^ 63)
    with ((a + 2 ^ 63) mod 2 ^ 64 + b) by lia.
  rewrite Zplus_mod_idemp_l.
  replace (a + 2 ^ 63 + b) with (a + b + 2 ^ 63) by lia. reflexivity.
Qed.


Lemma wrap64_sub_l a b : wrap64 (wrap64 a - b) = wrap64 (a - b).
Proof. unfold Z.sub at 1. rewrite wrap64_add_l. reflexivity. Qed.


Lemma wrap64_idem a : wrap64 (wrap64 a) = wrap64 a.
Proof.
  replace (wrap64 a) with (wrap64 a + 0) at 1 by lia.
  rewrite wrap64_add_l. f_equal. lia.
Qed.

(** ** Errors *)

Inductive error : Type :=
| ErrEmptyData            (* errors.New("empty data") *)
| ErrGzipLevel (level : Z) (* gzip.NewWriterLevel: invalid compression level *)
| ErrGzip                 (* gzip.NewReader / io.Copy on a corrupt stream *)
| ErrRLP                  (* rlp.DecodeBytes *)
| ErrWrite (code : Z)     (* an error of the destination io.Writer *)
| ErrUnexpectedType       (* "RequestWitnesses received unexpected response type" *)
| ErrRequestWitness       (* the error of a refused Peer.RequestWitness call *)
| ErrWitClose (code : Z). (* an error of wit.Request.Close *)

#[global] Instance error_eq_dec : EqDecision error.
Proof. solve_decision. Defined.

(** ** io.Writer *)

(** [Write] returns the writer after the call and Go's [err] ([None] is nil). *)
Class Writer (W : Type) := Write : W -> list byte -> W * option error.

(** bytes.Buffer: appends, never fails. *)
#[global] Instance Buffer_Writer : Writer (list byte) :=
  fun buf p => (buf ++ p, None).

(** A writer that accepts [room] more bytes and then fails: the destination
    may be any io.Writer, so its errors are part of the model. *)
Record LimitedWriter := { written : list byte; room : Z }.

#[global] Instance Limited_Writer : Writer LimitedWriter :=
  fun lw p =>
    if len p <=? room lw
    then ({| written := written lw ++ p; room := room lw - len p |}, None)
    else (lw, Some (ErrWrite 28)).

(** ** Compression metrics (package-level counters and gauges)

    Counters and gauges hold an int64 and are updated with atomic adds.  The
    two timers record wall-clock durations; no function below reads them, so
    they are left out of the state. *)

Record Metrics := {
  compressionCount    : Z;
  uncompressedCount   : Z;
  decompressionCount  : Z;
  compressionRatio    : Z;
  totalOriginalSize   : Z;
  totalCompressedSize : Z;
  spaceSavedBytes     : Z
}.

(** The state [resetMetrics] leaves behind. *)
Definition zeroMetrics : Metrics :=
  {| compressionCount := 0; uncompressedCount := 0; decompressionCount := 0;
     compressionRatio := 0; totalOriginalSize := 0; totalCompressedSize := 0;
     spaceSavedBytes := 0 |}.

(** Counter.Inc / Gauge.Inc: an int64 add. *)
Definition Inc (v i : Z) : Z := wrap64 (v + i).

(** ** Configuration *)

Record CompressionConfig := {
  Enabled          : bool;
  Threshold        : Z;
  CompressionLevel : Z;
  UseDeduplication : bool
}.

Definition compressionThreshold : Z := 1 * 1024 * 1024.

(** gzip.BestSpeed *)
Definition gzip_BestSpeed : Z := 1.

Definition DefaultCompressionConfig : CompressionConfig :=
  {| Enabled := true; Threshold := compressionThreshold;
     CompressionLevel := gzip_BestSpeed; UseDeduplication := true |}.

(** gzip.NewWriterLevel accepts the levels HuffmanOnly (-2) .. BestCompression (9)
    and returns an error for every other level. *)
Definition gzip_level_ok (level : Z) : bool := (-2 <=? level) && (level <=? 9).

(** ** Witnesses *)

Section Codec.

(** types.Header, opaque to this code. *)
Context {Header : Type}.

(** The fields of stateless.Witness that the codec reads and writes. [context]
    is a pointer and may be nil; [State] is a [map[string]struct{}]. *)
Record Witness := {
  context : option Header;
  Headers : list Header;
  State   : gset (list byte)
}.

(** extWitness: the witness as it goes over the wire. *)
Record extWitness := {
  ext_Context : option Header;
  ext_Headers : list Header;
  ext_State   : list (list byte)
}.

(** The order in which [for node := range w.State] visits the set. *)
Variable range_order : gset (list byte) -> list (list byte).

(** rlp.Encode and rlp.DecodeBytes at type extWitness ([None]: decode error). *)
Variable rlp_encode : extWitness -> list byte.
Variable rlp_decode : list byte -> option extWitness.

(** The gzip stream a writer of the given level produces for the data, and the
    result of reading a whole gzip stream ([None]: corrupt stream). *)
Variable gzip_compress : Z -> list byte -> list byte.
Variable gunzip : list byte -> option (list byte).

(** [int64(float64(compressed) / float64(original) * 100)] *)
Variable ratio_percent : Z -> Z -> Z.

(** Modelled from the spec: Witness.Optimize (core/stateless/witness.go is not
    among the sources). "optimize(witness): removes empty-string state entries
    before encoding when deduplication is configured"; the tests of
    example_test.go check that exactly the entry "" disappears, in place. *)
Definition Optimize (w : Witness) : Witness :=
  {| context := context w; Headers := Headers w; State := State w ∖ {[ [] ]} |}.

Definition toExtWitness (w : Witness) : extWitness :=
  {| ext_Context := context w; ext_Headers := Headers w;
     ext_State := range_order (State w) |}.

(** [fromExtWitness] overwrites the three fields of the receiver. *)
Definition fromExtWitness (w : Witness) (ext : extWitness) : Witness :=
  {| context := ext_Context ext; Headers := ext_Headers ext;
     State := list_to_set (ext_State ext) |}.

(** EncodeRLP: optimises the receiver in place when deduplication is on, then
    writes its RLP encoding. Returns the receiver, the writer and [err]. *)
Definition EncodeRLP {W} `{Writer W} (cfg : CompressionConfig) (w : Witness) (wr : W)
  : Witness * W * option error :=
  let w := if UseDeduplication cfg then Optimize w else w in
  let '(wr, err) := Write wr (rlp_encode (toExtWitness w)) in
  (w, wr, err).

(** DecodeRLP on the bytes of one stream. *)
Definition DecodeRLP (w : Witness) (s : list byte) : Witness * option error :=
  match rlp_decode s with
  | None => (w, Some ErrRLP)
  | Some ext => (fromExtWitness w ext, None)
  end.

(** EncodeCompressed. Returns the receiver, the metrics, the writer and [err]. *)
Definition EncodeCompressed {W} `{Writer W}
    (cfg : CompressionConfig) (m : Metrics) (w : Witness) (wr : W)
  : Witness * Metrics * W * option error :=
  let '(w, rlpBuf, err) := EncodeRLP cfg w ([] : list byte) in
  match err with
  | Some e => (w, m, wr, Some e)
  | None =>
    let rlpData := rlpBuf in
    let originalSize := len rlpData in
    let m := {| compressionCount := compressionCount m;
                uncompressedCount := uncompressedCount m;
                decompressionCount := decompressionCount m;
                compressionRatio := compressionRatio m;
                totalOriginalSize := Inc (totalOriginalSize m) originalSize;
                totalCompressedSize := totalCompressedSize m;
                spaceSavedBytes := spaceSavedBytes m |} in
    let uncompressed (_ : unit) :=
      let m := {| compressionCount := compressionCount m;
                  uncompressedCount := Inc (uncompressedCount m) 1;
                  decompressionCount := decompressionCount m;
                  compressionRatio := compressionRatio m;
                  totalOriginalSize := totalOriginalSize m;
                  totalCompressedSize := Inc (totalCompressedSize m) originalSize;
                  spaceSavedBytes := spaceSavedBytes m |} in
      let '(wr, err) := Write wr [x00] in
      match err with
      | Some e => (w, m, wr, Some e)
      | None => let '(wr, err) := Write wr rlpData in (w, m, wr, err)
      end in
    if Enabled cfg && (Threshold cfg <? len rlpData) then
      if negb (gzip_level_ok (CompressionLevel cfg)) then
        (w, m, wr, Some (ErrGzipLevel (CompressionLevel cfg)))
      else
        let compressedData := gzip_compress (CompressionLevel cfg) rlpData in
        if len compressedData <? len rlpData then
          let m := {| compressionCount := Inc (compressionCount m) 1;
                      uncompressedCount := uncompressedCount m;
                      decompressionCount := decompressionCount m;
                      compressionRatio :=
                        ratio_percent (len compressedData) originalSize;
                      totalOriginalSize := totalOriginalSize m;
                      totalCompressedSize :=
                        Inc (totalCompressedSize m) (len compressedData);
                      spaceSavedBytes :=
                        Inc (spaceSavedBytes m)
                            (wrap64 (originalSize - len compressedData)) |} in
          let '(wr, err) := Write wr [x01] in
          match err with
          | Some e => (w, m, wr, Some e)
          | None => let '(wr, err) := Write wr compressedData in (w, m, wr, err)
          end
        else uncompressed tt
    else uncompressed tt
  end.

(** DecodeCompressed. Returns the receiver, the metrics and [err]. *)
Definition DecodeCompressed (m : Metrics) (w : Witness) (data : list byte)
  : Witness * Metrics * option error :=
  if len data =? 0 then (w, m, Some ErrEmptyData)
  else
    let compressed := bool_decide (nth 0 data x00 = x01) in
    let witnessData := skipn 1 data in
    let decode (m : Metrics) (rlpData : list byte) :=
      match rlp_decode rlpData with
      | None => (w, m, Some ErrRLP)
      | Some ext => (fromExtWitness w ext, m, None)
      end in
    if compressed then
      match gunzip witnessData with
      | None => (w, m, Some ErrGzip)
      | Some rlpData =>
        let m := {| compressionCount := compressionCount m;
                    uncompressedCount := uncompressedCount m;
                    decompressionCount := Inc (decompressionCount m) 1;
                    compressionRatio := compressionRatio m;
                    totalOriginalSize := totalOriginalSize m;
                    totalCompressedSize := totalCompressedSize m;
                    spaceSavedBytes := spaceSavedBytes m |} in
        decode m rlpData
      end
    else decode m witnessData.

End Codec.

(** ** Paged witness requests (eth/peer.go) *)

Definition DefaultPagesRequestPerWitness     : Z := 1.
Definition DefaultConcurrentRequestsPerPeer  : Z := 5.
Definition DefaultConcurrentResponsesHandled : Z := 10.
Definition DefaultMaxPagesRequestRetries     : Z := 2.

(** common.Hash, 32 bytes read as a number. *)
Abbreviation Hash := N.

(** uint64 arithmetic. *)
Definition wrapU64 (z : Z) : Z := z mod 2 ^ 64.

(** wit.WitnessPageRequest *)
Record WitnessPageRequest := { req_Hash : Hash; req_Page : Z }.

#[global] Instance WitnessPageRequest_eq_dec : EqDecision WitnessPageRequest.
Proof. solve_decision. Defined.

(** wit.WitnessPageResponse *)
Record WitnessPageResponse := {
  Data       : list byte;
  resp_Hash  : Hash;
  Page       : Z;
  TotalPages : Z
}.

(** The dynamic type of [wit.Response.Res]: the packet the adapter expects, or
    anything else (the tests answer a failing request with [Res: 0]). *)
Inductive Res : Type :=
| WitnessPacketRLPPacket (WitnessPacketResponse : list WitnessPageResponse)
| OtherRes.

(** witReqRes: a response with the request it answers. *)
Record witReqRes := { Request : list WitnessPageRequest; Response : Res }.

Record witReqRetryCount := { FailCount : Z; ShouldRetryAgain : bool }.

(** Go's zero value, what a map lookup of a missing key yields. *)
Definition zeroRetryCount : witReqRetryCount :=
  {| FailCount := 0; ShouldRetryAgain := false |}.

(** [pages[i].Page < pages[j].Page], the order handed to sort.Slice. *)
Definition page_less (a b : WitnessPageResponse) : bool := Page a <? Page b.

(** What the code needs of sort.Slice (it is not stable, and the code does not
    need it to be): the result is a rearrangement of the slice in which no
    later element is less than an earlier one. *)
Definition sort_Slice_spec
    (sort_Slice : (WitnessPageResponse -> WitnessPageResponse -> bool) ->
                  list WitnessPageResponse -> list WitnessPageResponse) : Prop :=
  forall l, Permutation l (sort_Slice page_less l) /\
            StronglySorted (fun a b => page_less b a = false) (sort_Slice page_less l).

(** The pages [start, start+1, ...], [n] of them, as the loop
    [for page := start; page < end; page++] visits them. *)
Fixpoint page_range (start : Z) (n : nat) : list Z :=
  match n with
  | O => []
  | S n => start :: page_range (start + 1) n
  end.

Section Dispatcher.

Context {Header : Type}.

Variable rlp_decode : list byte -> option (@extWitness Header).

Variable sort_Slice : (WitnessPageResponse -> WitnessPageResponse -> bool) ->
                      list WitnessPageResponse -> list WitnessPageResponse.

(** Whether [p.witPeer.Peer.RequestWitness] accepts the request ([false]: it
    returns an error and no request is sent). *)
Variable RequestWitness_ok : WitnessPageRequest -> bool.

(** [new(stateless.Witness)] *)
Definition newWitness : @Witness Header :=
  {| context := None; Headers := []; State := ∅ |}.

(** The maps and the slice shared by the goroutines of one RequestWitnesses
    call. [witReqs] lists the requests handed to the peer, oldest first. *)
Record Batch := {
  witReqs              : list WitnessPageRequest;
  witTotalPages        : gmap Hash Z;
  witTotalRequest      : gmap Hash Z;
  failedRequests       : gmap Hash (gmap Z witReqRetryCount);
  receivedWitPages     : gmap Hash (list WitnessPageResponse);
  reconstructedWitness : gmap Hash (@Witness Header)
}.

Definition emptyBatch : Batch :=
  {| witReqs := []; witTotalPages := ∅; witTotalRequest := ∅;
     failedRequests := ∅; receivedWitPages := ∅; reconstructedWitness := ∅ |}.

(** reconstructWitness. sort.Slice sorts the caller's slice in place, so the
    sorted pages are returned next to the result. *)
Definition reconstructWitness (pages : list WitnessPageResponse)
  : list WitnessPageResponse * (@Witness Header + error) :=
  let pages := sort_Slice page_less pages in
  let reconstructedWitnessRLPBytes := concat (map Data pages) in
  match DecodeRLP rlp_decode newWitness reconstructedWitnessRLPBytes with
  | (_, Some e) => (pages, inr e)
  | (wit, None) => (pages, inl wit)
  end.

(** doWitnessRequest, without its channel plumbing: the permit taken from
    witReqSem only decides when the request goes out (see [Sched] below). *)
Definition doWitnessRequest (hash : Hash) (page : Z) (b : Batch)
  : Batch * option error :=
  let request := {| req_Hash := hash; req_Page := page |} in
  if negb (RequestWitness_ok request) then (b, Some ErrRequestWitness)
  else
    let total := default 0 (witTotalRequest b !! hash) in
    ({| witReqs := witReqs b ++ [request];
        witTotalPages := witTotalPages b;
        witTotalRequest :=
          if total <=? page
          then <[hash := wrapU64 (total + 1)]> (witTotalRequest b)
          else witTotalRequest b;
        failedRequests := failedRequests b;
        receivedWitPages := receivedWitPages b;
        reconstructedWitness := reconstructedWitness b |}, None).

(** A loop whose body may return an error, which ends the loop. *)
Fixpoint forEach {A S} (body : A -> S -> S * option error) (l : list A) (s : S)
  : S * option error :=
  match l with
  | [] => (s, None)
  | x :: l =>
    match body x s with
    | (s, Some e) => (s, Some e)
    | (s, None) => forEach body l s
    end
  end.

(** The keys [(hash, page)] in the order the nested [range] loops over
    failedRequests visit them. *)
Definition failed_keys (failed : gmap Hash (gmap Z witReqRetryCount))
  : list (Hash * Z) :=
  map_to_list failed ≫= fun entry =>
    (fun retry => (fst entry, fst retry)) <$> map_to_list (snd entry).

Definition lookupRetry (b : Batch) (hash : Hash) (page : Z) : witReqRetryCount :=
  default zeroRetryCount (default ∅ (failedRequests b !! hash) !! page).

Definition storeRetry (b : Batch) (hash : Hash) (page : Z) (rc : witReqRetryCount)
  : Batch :=
  {| witReqs := witReqs b;
     witTotalPages := witTotalPages b;
     witTotalRequest := witTotalRequest b;
     failedRequests :=
       <[hash := <[page := rc]> (default ∅ (failedRequests b !! hash))]>
         (failedRequests b);
     receivedWitPages := receivedWitPages b;
     reconstructedWitness := reconstructedWitness b |}.

(** buildWitnessRequests, first loop body ("checking requests to be done"):
    the pages of [hash] from the number already requested up to the number of
    pages known, or up to DefaultPagesRequestPerWitness while it is unknown. *)
Definition requestMissing (hash : Hash) (b : Batch) : Batch * option error :=
  let start := default 0 (witTotalRequest b !! hash) in
  let end_ :=
    match witTotalPages b !! hash with
    | Some e => if e =? 0 then DefaultPagesRequestPerWitness else e
    | None => DefaultPagesRequestPerWitness
    end in
  forEach (doWitnessRequest hash) (page_range start (Z.to_nat (end_ - start))) b.

(** buildWitnessRequests, second loop body ("checking failed requests to
    retry"). *)
Definition retryFailed (key : Hash * Z) (b : Batch) : Batch * option error :=
  let '(hash, page) := key in
  let retryCount := lookupRetry b hash page in
  if ShouldRetryAgain retryCount then
    match doWitnessRequest hash page b with
    | (b, Some e) => (b, Some e)
    | (b, None) =>
      (storeRetry b hash page
         {| FailCount := FailCount retryCount; ShouldRetryAgain := false |}, None)
    end
  else (storeRetry b hash page retryCount, None).

(** buildWitnessRequests: one pass under buildRequestMu. *)
Definition buildWitnessRequests (hashes : list Hash) (b : Batch)
  : Batch * option error :=
  match forEach requestMissing hashes b with
  | (b, Some e) => (b, Some e)
  | (b, None) => forEach retryFailed (failed_keys (failedRequests b)) b
  end.

(** [go func() { p.buildWitnessRequests(...); witReqsWg.Done() }()]: the pass
    runs and its error is dropped. *)
Definition spawnBuild (hashes : list Hash) (b : Batch) : Batch :=
  fst (buildWitnessRequests hashes b).

(** The body of the loop over the pages of one packet. *)
Definition receivePage (hashes : list Hash) (page : WitnessPageResponse) (b : Batch)
  : Batch * option error :=
  if len (Data page) =? 0 then (b, None)
  else
    let hash := resp_Hash page in
    let received := default [] (receivedWitPages b !! hash) ++ [page] in
    let withReceived (received : list WitnessPageResponse)
                     (rec : gmap Hash (@Witness Header)) :=
      {| witReqs := witReqs b;
         witTotalPages := witTotalPages b;
         witTotalRequest := witTotalRequest b;
         failedRequests := failedRequests b;
         receivedWitPages := <[hash := received]> (receivedWitPages b);
         reconstructedWitness := rec |} in
    let learnTotal (b : Batch) :=
      {| witReqs := witReqs b;
         witTotalPages := <[hash := TotalPages page]> (witTotalPages b);
         witTotalRequest := witTotalRequest b;
         failedRequests := failedRequests b;
         receivedWitPages := receivedWitPages b;
         reconstructedWitness := reconstructedWitness b |} in
    if len received =? int_of_uint64 (TotalPages page) then
      match reconstructWitness received with
      | (sorted, inr e) => (withReceived sorted (reconstructedWitness b), Some e)
      | (sorted, inl wit) =>
        (spawnBuild hashes
           (learnTotal (withReceived sorted (<[hash := wit]> (reconstructedWitness b)))),
         None)
      end
    else
      (spawnBuild hashes (learnTotal (withReceived received (reconstructedWitness b))),
       None).

(** The deferred function of receiveWitnessPage, run when it returns an error. *)
Definition recordFailure (hashes : list Hash) (requests : list WitnessPageRequest)
    (b : Batch) : Batch :=
  let b :=
    fold_left (fun b request =>
      let retryCount := lookupRetry b (req_Hash request) (req_Page request) in
      let failCount := wrap64 (FailCount retryCount + 1) in
      storeRetry b (req_Hash request) (req_Page request)
        {| FailCount := failCount;
           ShouldRetryAgain :=
             if failCount <=? DefaultMaxPagesRequestRetries then true
             else ShouldRetryAgain retryCount |}) requests b in
  spawnBuild hashes b.

(** receiveWitnessPage. Each build pass it starts is run to its end at the
    point where the code starts it. *)
Definition receiveWitnessPage (hashes : list Hash) (r : witReqRes) (b : Batch)
  : Batch * option error :=
  let '(b, retrievedError) :=
    match Response r with
    | OtherRes => (b, Some ErrUnexpectedType)
    | WitnessPacketRLPPacket pages => forEach (receivePage hashes) pages b
    end in
  match retrievedError with
  | Some e => (recordFailure hashes (Request r) b, Some e)
  | None => (b, None)
  end.

(** The adapter goroutine of RequestWitnesses: the first build pass, then one
    receiveWitnessPage per tuple read from witReqResCh. *)
Definition startBatch (hashes : list Hash) : Batch := spawnBuild hashes emptyBatch.

Definition adapterLoop (hashes : list Hash) (rs : list witReqRes) (b : Batch) : Batch :=
  fold_left (fun b r => fst (receiveWitnessPage hashes r b)) rs b.

(** The witnesses of the aggregate response: the values of reconstructedWitness. *)
Definition aggregate (b : Batch) : list (Hash * @Witness Header) :=
  map_to_list (reconstructedWitness b).

End Dispatcher.

(** ** The permits of witReqSem

    The goroutines of one RequestWitnesses call, as far as they touch the
    semaphore [witReqSem] (a channel of capacity
    DefaultConcurrentRequestsPerPeer) and the fan-in channel [witReqResCh]
    (capacity DefaultConcurrentResponsesHandled). Each constructor of [step]
    is one statement of the source. *)

Record Sched := {
  witReqSem   : list Z;                    (* the buffer of the semaphore channel *)
  acquired    : nat;                       (* past `witReqSem <- 1`, before RequestWitness *)
  refused     : nat;                       (* RequestWitness returned an error *)
  atPeer      : list WitnessPageRequest;   (* sent, the peer has not replied *)
  forwarding  : list WitnessPageRequest;   (* reply read from witResCh, not yet in witReqResCh *)
  witReqResCh : list WitnessPageRequest;   (* the buffer of the fan-in channel *)
  handling    : option WitnessPageRequest  (* taken by the adapter, permit not yet returned *)
}.

Definition initSched : Sched :=
  {| witReqSem := []; acquired := 0; refused := 0; atPeer := [];
     forwarding := []; witReqResCh := []; handling := None |}.

Inductive step : Sched -> Sched -> Prop :=
(* doWitnessRequest: `witReqSem <- 1` blocks while the buffer is full *)
| step_acquire s :
    len (witReqSem s) < DefaultConcurrentRequestsPerPeer ->
    step s {| witReqSem := witReqSem s ++ [1]; acquired := S (acquired s);
              refused := refused s; atPeer := atPeer s;
              forwarding := forwarding s; witReqResCh := witReqResCh s;
              handling := handling s |}
(* doWitnessRequest: RequestWitness returns a request *)
| step_request s n r :
    acquired s = S n ->
    step s {| witReqSem := witReqSem s; acquired := n;
              refused := refused s; atPeer := r :: atPeer s;
              forwarding := forwarding s; witReqResCh := witReqResCh s;
              handling := handling s |}
(* doWitnessRequest: RequestWitness returns an error; the permit stays taken *)
| step_refuse s n :
    acquired s = S n ->
    step s {| witReqSem := witReqSem s; acquired := n;
              refused := S (refused s); atPeer := atPeer s;
              forwarding := forwarding s; witReqResCh := witReqResCh s;
              handling := handling s |}
(* the forwarder goroutine: `witRes := <-witResCh` *)
| step_reply s l1 r l2 :
    atPeer s = l1 ++ r :: l2 ->
    step s {| witReqSem := witReqSem s; acquired := acquired s;
              refused := refused s; atPeer := l1 ++ l2;
              forwarding := r :: forwarding s; witReqResCh := witReqResCh s;
              handling := handling s |}
(* the forwarder goroutine: `witReqResCh <- &witReqRes{...}` *)
| step_forward s l1 r l2 :
    forwarding s = l1 ++ r :: l2 ->
    len (witReqResCh s) < DefaultConcurrentResponsesHandled ->
    step s {| witReqSem := witReqSem s; acquired := acquired s;
              refused := refused s; atPeer := atPeer s;
              forwarding := l1 ++ l2; witReqResCh := witReqResCh s ++ [r];
              handling := handling s |}
(* the adapter: `for witRes := range witReqResCh`, then receiveWitnessPage *)
| step_take s r rest :
    witReqResCh s = r :: rest ->
    handling s = None ->
    step s {| witReqSem := witReqSem s; acquired := acquired s;
              refused := refused s; atPeer := atPeer s;
              forwarding := forwarding s; witReqResCh := rest;
              handling := Some r |}
(* the adapter: `<-witReqSem` after receiveWitnessPage has returned *)
| step_release s r permit rest :
    handling s = Some r ->
    witReqSem s = permit :: rest ->
    step s {| witReqSem := rest; acquired := acquired s;
              refused := refused s; atPeer := atPeer s;
              forwarding := forwarding s; witReqResCh := witReqResCh s;
              handling := None |}.

Inductive reachable : Sched -> Prop :=
| reachable_init : reachable initSched
| reachable_step s s' : reachable s -> step s s' -> reachable s'.

(** The sub-requests for which RequestWitness has been called and whose
    response the adapter has not finished handling. *)
Definition inFlight (s : Sched) : Z :=
  len (atPeer s) + len (forwarding s) + len (witReqResCh s)
  + (match handling s with Some _ => 1 | None => 0 end).

(** ** ethWitRequest.Close *)

Inductive chan := ChanOpen | ChanClosed.

(** What a call does: it returns, or it panics. *)
Inductive outcome (A : Type) : Type :=
| Returns (a : A)
| Panics.          (* "close of closed channel" *)
Arguments Returns {A} a.
Arguments Panics {A}.

Section Close.

(** wit.Request and its Close method, which returns the request after the call
    and [err]. *)
Context {witRequest : Type}.
Variable witRequest_Close : witRequest -> witRequest * option error.

(** The embedded eth.Request shim: only its Cancel channel matters here. *)
Record ethRequest := { Cancel : chan }.

Record ethWitRequest := {
  eth_Request  : ethRequest;
  wit_Requests : list witRequest   (* the field witReqs *)
}.

(** The loop over r.witReqs, which stops at the first error. *)
Fixpoint closeAll (l : list witRequest) : list witRequest * option error :=
  match l with
  | [] => ([], None)
  | witReq :: l =>
    match witRequest_Close witReq with
    | (witReq, Some e) => (witReq :: l, Some e)
    | (witReq, None) => let '(l, err) := closeAll l in (witReq :: l, err)
    end
  end.

(** Close: [close(r.Request.Cancel)], then the loop. Closing a closed channel
    panics. *)
Definition Close (r : ethWitRequest) : outcome (ethWitRequest * option error) :=
  match Cancel (eth_Request r) with
  | ChanClosed => Panics
  | ChanOpen =>
    let '(l, err) := closeAll (wit_Requests r) in
    Returns ({| eth_Request := {| Cancel := ChanClosed |}; wit_Requests := l |}, err)
  end.

End Close.

(** ** A concrete instance of the collaborators

    Used where a statement needs closed terms to evaluate: RLP as the Yellow
    Paper defines it, at the shape of extWitness, with a header standing for
    the payload of its own RLP list; a run-length code behind the gzip magic
    number in the place of compress/gzip; insertion sort in the place of
    sort.Slice. *)

Module Ref.

Definition Header : Type := list byte.

Definition byteZ (z : Z) : byte := byte_of_N (Z.to_N z).
Definition Zbyte (b : byte) : Z := Z.of_N (Byte.to_N b).

(** Big-endian digits of [n], without leading zeros. *)
Fixpoint be_bytes (fuel : nat) (n : Z) : list byte :=
  match fuel with
  | O => []
  | S fuel => if n <=? 0 then [] else be_bytes fuel (n / 256) ++ [byteZ (n mod 256)]
  end.

Definition be_value (bs : list byte) : Z :=
  fold_left (fun acc b => acc * 256 + Zbyte b) bs 0.

Definition rlp_prefix (offset n : Z) : list byte :=
  if n <=? 55 then [byteZ (offset + n)]
  else let digits := be_bytes 8 n in byteZ (offset + 55 + len digits) :: digits.

Definition rlp_string (bs : list byte) : list byte :=
  match bs with
  | [b] => if Zbyte b <? 128 then [b] else rlp_prefix 128 1 ++ bs
  | _ => rlp_prefix 128 (len bs) ++ bs
  end.

Definition rlp_list (payload : list byte) : list byte :=
  rlp_prefix 192 (len payload) ++ payload.

Definition rlp_encode (ext : @extWitness Header) : list byte :=
  rlp_list
    (match ext_Context ext with Some h => rlp_list h | None => rlp_list [] end
     ++ rlp_list (concat (map rlp_list (ext_Headers ext)))
     ++ rlp_list (concat (map rlp_string (ext_State ext)))).

Inductive kind := KString | KList.

(** [n] bytes off the front, if there are that many. *)
Definition take_exact (n : Z) (bs : list byte) : option (list byte * list byte) :=
  if (0 <=? n) && (n <=? len bs)
  then Some (firstn (Z.to_nat n) bs, skipn (Z.to_nat n) bs)
  else None.

(** A length of [lenlen] big-endian digits, canonical: no leading zero, more
    than 55. *)
Definition long_length (lenlen : Z) (bs : list byte) : option (Z * list byte) :=
  match take_exact lenlen bs with
  | Some (digits, rest) =>
    match digits with
    | d :: _ =>
      if (Zbyte d =? 0) || (be_value digits <=? 55) then None
      else Some (be_value digits, rest)
    | [] => None
    end
  | None => None
  end.

(** The first item of a stream: its kind, its payload and what follows. *)
Definition rlp_split (bs : list byte) : option (kind * list byte * list byte) :=
  match bs with
  | [] => None
  | b :: rest =>
    let t := Zbyte b in
    if t <? 128 then Some (KString, [b], rest)
    else if t <? 184 then
      match take_exact (t - 128) rest with
      | Some ([c], rest) => if Zbyte c <? 128 then None else Some (KString, [c], rest)
      | Some (payload, rest) => Some (KString, payload, rest)
      | None => None
      end
    else if t <? 192 then
      match long_length (t - 183) rest with
      | Some (n, rest) =>
        match take_exact n rest with
        | Some (payload, rest) => Some (KString, payload, rest)
        | None => None
        end
      | None => None
      end
    else if t <? 248 then
      match take_exact (t - 192) rest with
      | Some (payload, rest) => Some (KList, payload, rest)
      | None => None
      end
    else
      match long_length (t - 247) rest with
      | Some (n, rest) =>
        match take_exact n rest with
        | Some (payload, rest) => Some (KList, payload, rest)
        | None => None
        end
      | None => None
      end
  end.

(** The items of a list payload; every item takes at least one byte, so the
    length of the payload is fuel enough. *)
Fixpoint rlp_items_fuel (fuel : nat) (bs : list byte) : option (list (kind * list byte)) :=
  match bs with
  | [] => Some []
  | _ =>
    match fuel with
    | O => None
    | S fuel =>
      match rlp_split bs with
      | Some (k, payload, rest) =>
        match rlp_items_fuel fuel rest with
        | Some items => Some ((k, payload) :: items)
        | None => None
        end
      | None => None
      end
    end
  end.

Definition rlp_items (bs : list byte) : option (list (kind * list byte)) :=
  rlp_items_fuel (length bs) bs.

(** Every item must be of kind [k]; a header must not be the empty list. *)
Fixpoint all_of (k : kind) (items : list (kind * list byte)) : option (list (list byte)) :=
  match items with
  | [] => Some []
  | (k', payload) :: items =>
    match k, k', all_of k items with
    | KString, KString, Some l => Some (payload :: l)
    | KList, KList, Some l => if len payload =? 0 then None else Some (payload :: l)
    | _, _, _ => None
    end
  end.

Definition rlp_decode (bs : list byte) : option (@extWitness Header) :=
  match rlp_split bs with
  | Some (KList, payload, []) =>
    match rlp_items payload with
    | Some [(KList, ctx); (KList, hs); (KList, st)] =>
      match rlp_items hs, rlp_items st with
      | Some hs, Some st =>
        match all_of KList hs, all_of KString st with
        | Some hs, Some st =>
          if len ctx =? 0 then None
          else Some {| ext_Context := Some ctx; ext_Headers := hs; ext_State := st |}
        | _, _ => None
        end
      | _, _ => None
      end
    | _ => None
    end
  | _ => None
  end.

(** Runs of equal bytes as (count, byte) pairs, counts in 1..255. *)
Fixpoint rle (bs : list byte) : list (Z * byte) :=
  match bs with
  | [] => []
  | b :: bs =>
    match rle bs with
    | (n, c) :: runs =>
      if bool_decide (b = c) && (n <? 255) then (n + 1, c) :: runs
      else (1, b) :: (n, c) :: runs
    | [] => [(1, b)]
    end
  end.

Definition gzip_compress (level : Z) (data : list byte) : list byte :=
  x1f :: x8b :: flat_map (fun '(n, c) => [byteZ n; c]) (rle data).

Fixpoint unrle (bs : list byte) (fuel : nat) : option (list byte) :=
  match fuel, bs with
  | _, [] => Some []
  | S fuel, n :: c :: bs =>
    if Zbyte n =? 0 then None
    else match unrle bs fuel with
         | Some out => Some (repeat c (Z.to_nat (Zbyte n)) ++ out)
         | None => None
         end
  | _, _ => None
  end.

Definition gunzip (bs : list byte) : option (list byte) :=
  match bs with
  | m1 :: m2 :: body =>
    if bool_decide (m1 = x1f) && bool_decide (m2 = x8b) then unrle body (length body)
    else None
  | _ => None
  end.

Definition ratio_percent (compressed original : Z) : Z := compressed * 100 / original.

Definition range_order (s : gset (list byte)) : list (list byte) := elements s.

Fixpoint insert_page (less : WitnessPageResponse -> WitnessPageResponse -> bool)
    (x : WitnessPageResponse) (l : list WitnessPageResponse) : list WitnessPageResponse :=
  match l with
  | [] => [x]
  | y :: l => if less x y then x :: y :: l else y :: insert_page less x l
  end.

Definition sort_Slice (less : WitnessPageResponse -> WitnessPageResponse -> bool)
    (l : list WitnessPageResponse) : list WitnessPageResponse :=
  fold_right (insert_page less) [] l.

Definition witRequest_Close (code : Z) : Z * option error :=
  (code, if code =? 0 then None else Some (ErrWitClose code)).

End Ref.

(** * Properties of the codec *)

Section CodecFacts.

Context {Header : Type}.
Variable range_order : gset (list byte) -> list (list byte).
Variable rlp_encode : @extWitness Header -> list byte.
Variable rlp_decode : list byte -> option (@extWitness Header).
Variable gzip_compress : Z -> list byte -> list byte.
Variable gunzip : list byte -> option (list byte).
Variable ratio_percent : Z -> Z -> Z.

Abbreviation Encode := (EncodeCompressed range_order rlp_encode gzip_compress ratio_percent).
Abbreviation Decode := (DecodeCompressed rlp_decode gunzip).

(** The metrics after a successful gunzip. *)
Definition countDecompression (m : Metrics) : Metrics :=
  {| compressionCount := compressionCount m;
     uncompressedCount := uncompressedCount m;
     decompressionCount := Inc (decompressionCount m) 1;
     compressionRatio := compressionRatio m;
     totalOriginalSize := totalOriginalSize m;
     totalCompressedSize := totalCompressedSize m;
     spaceSavedBytes := spaceSavedBytes m |}.

Lemma len_cons {A} (x : A) (l : list A) : (len (x :: l) =? 0) = false.
Proof. unfold len. apply Z.eqb_neq. simpl length. lia. Qed.

Lemma Decode_nil m w : Decode m w [] = (w, m, Some ErrEmptyData).
Proof. reflexivity. Qed.

Lemma Decode_gzip m w rest :
  Decode m w (x01 :: rest) =
  match gunzip rest with
  | None => (w, m, Some ErrGzip)
  | Some rlpData =>
    let '(w', err) := DecodeRLP rlp_decode w rlpData in (w', countDecompression m, err)
  end.
Proof.
  unfold DecodeCompressed. rewrite len_cons.
  change (skipn 1 (x01 :: rest)) with rest. change (nth 0 (x01 :: rest) x00) with x01.
  rewrite bool_decide_eq_true_2 by reflexivity.
  destruct (gunzip rest) as [d|]; [|reflexivity].
  unfold DecodeRLP, countDecompression. destruct (rlp_decode d); reflexivity.
Qed.

Lemma Decode_plain m w b rest :
  b <> x01 ->
  Decode m w (b :: rest) =
  let '(w', err) := DecodeRLP rlp_decode w rest in (w', m, err).
Proof.
  intros Hb. unfold DecodeCompressed. rewrite len_cons.
  change (skipn 1 (b :: rest)) with rest. change (nth 0 (b :: rest) x00) with b.
  rewrite bool_decide_eq_false_2 by exact Hb.
  unfold DecodeRLP. destruct (rlp_decode rest); reflexivity.
Qed.

(** The inputs DecodeCompressed rejects. *)
Definition malformed (data : list byte) : Prop :=
  data = []
  \/ (exists rest, data = x01 :: rest /\ gunzip rest = None)
  \/ (exists rest rlpData, data = x01 :: rest /\ gunzip rest = Some rlpData
                           /\ rlp_decode rlpData = None)
  \/ (exists b rest, data = b :: rest /\ b <> x01 /\ rlp_decode rest = None).

(** The receiver as EncodeRLP leaves it. *)
Definition optimized (cfg : CompressionConfig) (w : @Witness Header) : Witness :=
  if UseDeduplication cfg then Optimize w else w.

Definition canonical (cfg : CompressionConfig) (w : Witness) : list byte :=
  rlp_encode (toExtWitness range_order (optimized cfg w)).

(** Whether EncodeCompressed takes the compressed branch. *)
Definition compresses (cfg : CompressionConfig) (w : Witness) : bool :=
  Enabled cfg && (Threshold cfg <? len (canonical cfg w))
  && gzip_level_ok (CompressionLevel cfg)
  && (len (gzip_compress (CompressionLevel cfg) (canonical cfg w)) <? len (canonical cfg w)).

(** Whether it stops at gzip.NewWriterLevel. *)
Definition level_refused (cfg : CompressionConfig) (w : Witness) : bool :=
  Enabled cfg && (Threshold cfg <? len (canonical cfg w))
  && negb (gzip_level_ok (CompressionLevel cfg)).

Definition metrics_of {W} (r : @Witness Header * Metrics * W * option error) : Metrics :=
  snd (fst (fst r)).

Definition witness_of {W} (r : @Witness Header * Metrics * W * option error) : Witness :=
  fst (fst (fst r)).

(** The metrics after one EncodeCompressed call do not depend on the writer. *)
Definition encodeMetrics (cfg : CompressionConfig) (m : Metrics) (w : Witness) : Metrics :=
  let o := len (canonical cfg w) in
  let c := len (gzip_compress (CompressionLevel cfg) (canonical cfg w)) in
  if level_refused cfg w then
    {| compressionCount := compressionCount m;
       uncompressedCount := uncompressedCount m;
       decompressionCount := decompressionCount m;
       compressionRatio := compressionRatio m;
       totalOriginalSize := Inc (totalOriginalSize m) o;
       totalCompressedSize := totalCompressedSize m;
       spaceSavedBytes := spaceSavedBytes m |}
  else if compresses cfg w then
    {| compressionCount := Inc (compressionCount m) 1;
       uncompressedCount := uncompressedCount m;
       decompressionCount := decompressionCount m;
       compressionRatio := ratio_percent c o;
       totalOriginalSize := Inc (totalOriginalSize m) o;
       totalCompressedSize := Inc (totalCompressedSize m) c;
       spaceSavedBytes := Inc (spaceSavedBytes m) (wrap64 (o - c)) |}
  else
    {| compressionCount := compressionCount m;
       uncompressedCount := Inc (uncompressedCount m) 1;
       decompressionCount := decompressionCount m;
       compressionRatio := compressionRatio m;
       totalOriginalSize := Inc (totalOriginalSize m) o;
       totalCompressedSize := Inc (totalCompressedSize m) o;
       spaceSavedBytes := spaceSavedBytes m |}.

Lemma Encode_metrics {W} `{Writer W} cfg m w (wr : W) :
  metrics_of (Encode cfg m w wr) = encodeMetrics cfg m w
  /\ witness_of (Encode cfg m w wr) = optimized cfg w.
Proof.
  unfold EncodeCompressed, EncodeRLP, encodeMetrics, compresses, level_refused,
    metrics_of, witness_of.
  change (Write [] ?p) with (([] : list byte) ++ p, @None error).
  cbn [app]. fold (optimized cfg w). fold (canonical cfg w).
  destruct (Enabled cfg); cbn [andb];
    [destruct (Threshold cfg <? len (canonical cfg w)); cbn [andb];
     [destruct (gzip_level_ok (CompressionLevel cfg)); cbn [andb negb];
      [destruct (len (gzip_compress (CompressionLevel cfg) (canonical cfg w))
                 <? len (canonical cfg w))|]|]|];
    repeat match goal with
    | |- context [Write ?a ?b] => destruct (Write a b) as [? [?|]]
    end; cbn; auto.
Qed.

(** The output of EncodeCompressed into a bytes.Buffer. *)
Lemma Encode_Buffer cfg m w (buf : list byte) :
  level_refused cfg w = false ->
  Encode cfg m w buf =
  (optimized cfg w, encodeMetrics cfg m w,
   buf ++ (if compresses cfg w
           then x01 :: gzip_compress (CompressionLevel cfg) (canonical cfg w)
           else x00 :: canonical cfg w), None).
Proof.
  unfold EncodeCompressed, EncodeRLP, encodeMetrics, compresses, level_refused.
  change (@Write (list byte) _ ?b ?p) with (b ++ p, @None error).
  cbn [app]. fold (optimized cfg w). fold (canonical cfg w).
  destruct (Enabled cfg); cbn [andb];
    [destruct (Threshold cfg <? len (canonical cfg w)); cbn [andb];
     [destruct (gzip_level_ok (CompressionLevel cfg)); cbn [andb negb];
      [destruct (len (gzip_compress (CompressionLevel cfg) (canonical cfg w))
                 <? len (canonical cfg w))|]|]|];
    intros Hr; try discriminate Hr; rewrite <- ?app_assoc; reflexivity.
Qed.

(** space_saved == total_original - total_compressed, in int64 arithmetic. *)
Definition consistent (m : Metrics) : Prop :=
  spaceSavedBytes m = wrap64 (totalOriginalSize m - totalCompressedSize m).


Lemma level_ok_not_refused cfg w :
  gzip_level_ok (CompressionLevel cfg) = true -> level_refused cfg w = false.
Proof.
  unfold level_refused. intros ->. cbn. apply andb_false_r.
Qed.


Lemma list_to_set_range_order (s : gset (list byte)) :
  Permutation (range_order s) (elements s) -> list_to_set (range_order s) = s.
Proof.
  intros Hp. apply set_eq. intros x.
  rewrite elem_of_list_to_set, Hp. apply elem_of_elements.
Qed.

End CodecFacts.

Section CodecClaims.

Context {Header : Type}.
Variable range_order : gset (list byte) -> list (list byte).
Variable rlp_encode : @extWitness Header -> list byte.
Variable rlp_decode : list byte -> option (@extWitness Header).
Variable gzip_compress : Z -> list byte -> list byte.
Variable gunzip : list byte -> option (list byte).
Variable ratio_percent : Z -> Z -> Z.

Abbreviation Enc := (EncodeCompressed range_order rlp_encode gzip_compress ratio_percent).
Abbreviation Dec := (DecodeCompressed rlp_decode gunzip).





(** C10. DecodeCompressed of the empty input returns the error "empty data"
    and leaves the receiver as it was; of a non-empty input, the first byte
    alone is the marker (compressed exactly when it is 0x01) and exactly the
    bytes after it are the payload that is gunzipped and RLP-decoded. *)
Theorem DecodeCompressed_marker_then_payload (m : Metrics) (w : @Witness Header) :
  Dec m w [] = (w, m, Some ErrEmptyData)
  /\ forall b rest,
       Dec m w (b :: rest) =
       if bool_decide (b = x01) then
         match gunzip rest with
         | None => (w, m, Some ErrGzip)
         | Some rlpData =>
           let '(w', err) := DecodeRLP rlp_decode w rlpData in
           (w', countDecompression m, err)
         end
       else let '(w', err) := DecodeRLP rlp_decode w rest in (w', m, err).
Proof.
  split; [reflexivity|]. intros b rest.
  destruct (decide (b = x01)) as [->|Hb].
  - rewrite bool_decide_eq_true_2 by reflexivity. apply Decode_gzip.
  - rewrite bool_decide_eq_false_2 by exact Hb. now apply Decode_plain.
Qed.

(** C6 (amended). DecodeCompressed returns an error exactly on the inputs of
    [malformed]: the empty input, marker 0x01 before a corrupt gzip stream, and
    bytes to decode that are not the RLP of a witness; on an error the receiver
    is unchanged. The marker is only compared with 0x01: after any other
    first byte the rest is decoded as plain RLP, and succeeds when it is one. *)
Theorem DecodeCompressed_errors (m : Metrics) (w : @Witness Header) (data : list byte) :
  (malformed rlp_decode gunzip data <-> exists e, snd (Dec m w data) = Some e)
  /\ (malformed rlp_decode gunzip data -> fst (fst (Dec m w data)) = w)
  /\ (forall b rest ext, data = b :: rest -> b <> x01 -> rlp_decode rest = Some ext ->
        Dec m w data = (fromExtWitness w ext, m, None)).
Proof.
  assert (Hmal : malformed rlp_decode gunzip data ->
                 (exists e, snd (Dec m w data) = Some e) /\ fst (fst (Dec m w data)) = w).
  { intros [-> | [(rest & -> & Hg) | [(rest & d & -> & Hg & Hd) | (b & rest & -> & Hb & Hd)]]].
    - split; [eexists|]; reflexivity.
    - rewrite Decode_gzip, Hg. split; [eexists|]; reflexivity.
    - rewrite Decode_gzip, Hg. unfold DecodeRLP. rewrite Hd. split; [eexists|]; reflexivity.
    - rewrite Decode_plain by exact Hb. unfold DecodeRLP. rewrite Hd.
      split; [eexists|]; reflexivity. }
  split; [split|split].
  - intros H. apply Hmal, H.
  - intros [e He]. destruct data as [|b rest]; [left; reflexivity|].
    destruct (decide (b = x01)) as [->|Hb].
    + rewrite Decode_gzip in He. destruct (gunzip rest) as [d|] eqn:Hg.
      * right; right; left. exists rest, d. repeat split; try assumption.
        unfold DecodeRLP in He. destruct (rlp_decode d); [discriminate He|reflexivity].
      * right; left. exists rest. auto.
    + rewrite Decode_plain in He by exact Hb. right; right; right.
      exists b, rest. repeat split; try assumption.
      unfold DecodeRLP in He. destruct (rlp_decode rest); [discriminate He|reflexivity].
  - intros H. apply Hmal, H.
  - intros b rest ext -> Hb Hd. rewrite Decode_plain by exact Hb.
    unfold DecodeRLP. rewrite Hd. reflexivity.
Qed.

(** C2 (amended). For every witness and every configuration with a gzip level
    in 1..9, on which the RLP codec and gzip round-trip, EncodeCompressed into
    a buffer succeeds, writes marker 0x01 before the gzip stream or marker 0x00
    before the RLP bytes, and DecodeCompressed of the buffer yields the witness
    as EncodeCompressed left it: the witness itself when deduplication is off,
    the witness without its empty state entry when it is on. *)
Theorem EncodeCompressed_DecodeCompressed
    (cfg : CompressionConfig) (m m' : Metrics) (w w0 : @Witness Header) :
  let w' := optimized cfg w in
  let rlpData := canonical range_order rlp_encode cfg w in
  1 <= CompressionLevel cfg <= 9 ->
  Permutation (range_order (State w')) (elements (State w')) ->
  rlp_decode rlpData = Some (toExtWitness range_order w') ->
  gunzip (gzip_compress (CompressionLevel cfg) rlpData) = Some rlpData ->
  exists m1 m2 buf,
    Enc cfg m w ([] : list byte) = (w', m1, buf, None)
    /\ (buf = x01 :: gzip_compress (CompressionLevel cfg) rlpData
        \/ buf = x00 :: rlpData)
    /\ Dec m' w0 buf = (w', m2, None)
    /\ (UseDeduplication cfg = false \/ [] ∉ State w -> w' = w).
Proof.
  intros w' rlpData Hlevel Hperm Hrlp Hgz.
  assert (Hok : gzip_level_ok (CompressionLevel cfg) = true).
  { unfold gzip_level_ok. apply andb_true_intro. split; apply Z.leb_le; lia. }
  assert (Hfrom : fromExtWitness w0 (toExtWitness range_order w') = w').
  { unfold fromExtWitness, toExtWitness. cbn.
    rewrite (list_to_set_range_order range_order _ Hperm). destruct w'; reflexivity. }
  assert (Hsame : UseDeduplication cfg = false \/ [] ∉ State w -> w' = w).
  { subst w'. unfold optimized. intros [-> | Hne]; [reflexivity|].
    destruct (UseDeduplication cfg); [|reflexivity].
    unfold Optimize. destruct w as [c h s]; cbn in *. f_equal.
    apply set_eq. intros x. rewrite elem_of_difference, elem_of_singleton.
    split; [intros [Hx _]; exact Hx | intros Hx; split; [exact Hx | intros ->; exact (Hne Hx)]]. }
  rewrite (Encode_Buffer range_order rlp_encode gzip_compress ratio_percent cfg m w [])
    by now apply level_ok_not_refused.
  fold w'. fold rlpData. cbn [app].
  destruct (compresses range_order rlp_encode gzip_compress cfg w).
  - exists (encodeMetrics range_order rlp_encode gzip_compress ratio_percent cfg m w),
      (countDecompression m'), (x01 :: gzip_compress (CompressionLevel cfg) rlpData).
    repeat split; auto.
    rewrite Decode_gzip, Hgz. unfold DecodeRLP. rewrite Hrlp, Hfrom. reflexivity.
  - exists (encodeMetrics range_order rlp_encode gzip_compress ratio_percent cfg m w),
      m', (x00 :: rlpData).
    repeat split; auto.
    rewrite Decode_plain by discriminate. unfold DecodeRLP. rewrite Hrlp, Hfrom. reflexivity.
Qed.





End CodecClaims.

(** ** The codec on concrete witnesses *)

Definition header0 : Ref.Header := [x01; x02].

(** A witness whose one state node is sixty times the byte 'A'. *)
Definition witnessA : @Witness Ref.Header :=
  {| context := Some header0; Headers := [[x03]]; State := {[ repeat x41 60 ]} |}.

(** A small witness, and the same with the empty string among its state nodes. *)
Definition witnessB : @Witness Ref.Header :=
  {| context := Some header0; Headers := [[x03]]; State := {[ [x61] ]} |}.

Definition witnessE : @Witness Ref.Header :=
  {| context := Some header0; Headers := [[x03]]; State := {[ [] ; [x61] ]} |}.

(** The configuration of the tests: a low threshold, level 6. *)
Definition testConfig : CompressionConfig :=
  {| Enabled := true; Threshold := 10; CompressionLevel := 6; UseDeduplication := true |}.

Definition refEncode {W} `{Writer W} :=
  @EncodeCompressed Ref.Header Ref.range_order Ref.rlp_encode Ref.gzip_compress
                    Ref.ratio_percent W _.

Definition refDecode := @DecodeCompressed Ref.Header Ref.rlp_decode Ref.gunzip.

Example refEncode_witnessA_compressed :
  exists gz m, refEncode testConfig zeroMetrics witnessA ([] : list byte)
               = (witnessA, m, x01 :: gz, None)
               /\ len gz = 28 /\ totalOriginalSize m = 72 /\ spaceSavedBytes m = 44.
Proof. do 2 eexists. vm_compute. repeat split. Qed.

(** C2, at [witnessA] under [testConfig]: the compressed branch. *)
Lemma EncodeCompressed_DecodeCompressed_witness :
  exists m1 m2 buf,
    refEncode testConfig zeroMetrics witnessA ([] : list byte) = (witnessA, m1, buf, None)
    /\ (buf = x01 :: Ref.gzip_compress 6
                       (canonical Ref.range_order Ref.rlp_encode testConfig witnessA)
        \/ buf = x00 :: canonical Ref.range_order Ref.rlp_encode testConfig witnessA)
    /\ refDecode zeroMetrics newWitness buf = (witnessA, m2, None)
    /\ (UseDeduplication testConfig = false \/ [] ∉ State witnessA -> witnessA = witnessA).
Proof.
  assert (Hopt : optimized testConfig witnessA = witnessA) by (vm_compute; reflexivity).
  pose proof (EncodeCompressed_DecodeCompressed
                Ref.range_order Ref.rlp_encode Ref.rlp_decode Ref.gzip_compress Ref.gunzip
                Ref.ratio_percent testConfig zeroMetrics zeroMetrics witnessA newWitness) as T.
  cbv zeta in T. rewrite Hopt in T. apply T.
  - cbn. lia.
  - reflexivity.
  - vm_compute. reflexivity.
  - vm_compute. reflexivity.
Defined.

(** C2 as stated fails at [witnessE] under the default configuration: the
    buffer decodes without error to a witness that lacks the empty state node
    [witnessE] holds. *)
Lemma EncodeCompressed_drops_empty_state_node :
  exists m buf decoded,
    refEncode DefaultCompressionConfig zeroMetrics witnessE ([] : list byte)
      = (Optimize witnessE, m, buf, None)
    /\ refDecode zeroMetrics newWitness buf = (decoded, zeroMetrics, None)
    /\ ([] ∈ State witnessE)
    /\ ([] ∉ State decoded)
    /\ (decoded <> witnessE).
Proof.
  exists (encodeMetrics Ref.range_order Ref.rlp_encode Ref.gzip_compress Ref.ratio_percent
            DefaultCompressionConfig zeroMetrics witnessE),
    (x00 :: canonical Ref.range_order Ref.rlp_encode DefaultCompressionConfig witnessE),
    witnessB.
  assert (Hin : [] ∈ State witnessE) by (cbn; set_solver).
  assert (Hout : [] ∉ State witnessB) by (cbn; set_solver).
  split; [vm_compute; reflexivity|].
  split; [vm_compute; reflexivity|].
  split; [exact Hin|]. split; [exact Hout|].
  intros Heq. apply Hout. rewrite Heq. exact Hin.
Qed.

(** C6 as stated fails at the encoding of [witnessB]: with bit 1 of its marker
    0x00 flipped the input still decodes, without error, to [witnessB]. *)
Lemma DecodeCompressed_accepts_corrupted_marker :
  exists m rlpData,
    refEncode DefaultCompressionConfig zeroMetrics witnessB ([] : list byte)
      = (witnessB, m, x00 :: rlpData, None)
    /\ refDecode zeroMetrics newWitness (x02 :: rlpData) = (witnessB, zeroMetrics, None).
Proof.
  exists (encodeMetrics Ref.range_order Ref.rlp_encode Ref.gzip_compress Ref.ratio_percent
            DefaultCompressionConfig zeroMetrics witnessB),
    (canonical Ref.range_order Ref.rlp_encode DefaultCompressionConfig witnessB).
  split; vm_compute; reflexivity.
Qed.


(** * Properties of the page dispatcher *)

(** The pages a peer cuts a byte string into: chunk [i] of [chunks] travels as
    page [index + i], and every page reports [total] pages. *)
Fixpoint splitPages (hash : Hash) (total index : Z) (chunks : list (list byte))
  : list WitnessPageResponse :=
  match chunks with
  | [] => []
  | c :: chunks =>
    {| Data := c; resp_Hash := hash; Page := index; TotalPages := total |}
    :: splitPages hash total (index + 1) chunks
  end.

Definition pagesOf (hash : Hash) (chunks : list (list byte)) : list WitnessPageResponse :=
  splitPages hash (len chunks) 0 chunks.

Lemma splitPages_Data hash total index chunks :
  map Data (splitPages hash total index chunks) = chunks.
Proof.
  revert index. induction chunks as [|c chunks IH]; intros index; cbn; [reflexivity|].
  now rewrite IH.
Qed.

Lemma splitPages_length hash total index chunks :
  length (splitPages hash total index chunks) = length chunks.
Proof. rewrite <- (splitPages_Data hash total index chunks) at 2. now rewrite length_map. Qed.

Lemma splitPages_Page_ge hash total index chunks p :
  In p (splitPages hash total index chunks) -> index <= Page p.
Proof.
  revert index. induction chunks as [|c chunks IH]; intros index; cbn; [tauto|].
  intros [<- | Hin]; cbn; [lia|]. apply IH in Hin. lia.
Qed.

Lemma splitPages_Page_inj hash total index chunks p q :
  In p (splitPages hash total index chunks) ->
  In q (splitPages hash total index chunks) ->
  Page p = Page q -> p = q.
Proof.
  revert index. induction chunks as [|c chunks IH]; intros index; cbn; [tauto|].
  intros [<- | Hp] [<- | Hq] Heq; cbn in *.
  - reflexivity.
  - apply splitPages_Page_ge in Hq. lia.
  - apply splitPages_Page_ge in Hp. lia.
  - eapply IH; eassumption.
Qed.

Lemma splitPages_sorted hash total index chunks :
  StronglySorted (fun a b => page_less b a = false) (splitPages hash total index chunks).
Proof.
  revert index. induction chunks as [|c chunks IH]; intros index; cbn; constructor.
  - apply IH.
  - apply List.Forall_forall. intros q Hq. apply splitPages_Page_ge in Hq.
    unfold page_less. cbn. apply Z.ltb_ge. lia.
Qed.

(** Two sortings of the same elements agree when the order tells the elements
    apart. *)
Lemma sorted_unique {A} (R : A -> A -> Prop) (l1 l2 : list A) :
  (forall a b, In a l1 -> In b l1 -> R a b -> R b a -> a = b) ->
  StronglySorted R l1 -> StronglySorted R l2 -> Permutation l1 l2 -> l1 = l2.
Proof.
  revert l2. induction l1 as [|a l1 IH]; intros l2 Hanti H1 H2 Hp.
  - apply Permutation_nil in Hp. now subst.
  - destruct l2 as [|b l2]; [apply Permutation_sym, Permutation_nil in Hp; discriminate|].
    apply StronglySorted_inv in H1 as [H1 Ha]. apply StronglySorted_inv in H2 as [H2 Hb].
    rewrite List.Forall_forall in Ha, Hb.
    assert (a = b) as <-.
    { assert (Hbin : In b (a :: l1)) by (eapply Permutation_in; [apply Permutation_sym, Hp | now left]).
      assert (Hain : In a (b :: l2)) by (eapply Permutation_in; [apply Hp | now left]).
      destruct Hbin as [Hab | Hbin]; [exact Hab|].
      destruct Hain as [Hba | Hain]; [now symmetry|].
      apply Hanti; [now left | now right | now apply Ha | now apply Hb]. }
    f_equal. apply IH; auto.
    + intros x y Hx Hy. apply Hanti; now right.
    + eapply Permutation_cons_inv, Hp.
Qed.

Section DispatcherFacts.

Context {Header : Type}.
Variable rlp_decode : list byte -> option (@extWitness Header).
Variable sort_Slice : (WitnessPageResponse -> WitnessPageResponse -> bool) ->
                      list WitnessPageResponse -> list WitnessPageResponse.

(** Whatever the arrival order, sort.Slice puts the pages of one split back
    in the order of the split. *)
Lemma sort_Slice_pagesOf hash total index chunks arrived :
  sort_Slice_spec sort_Slice ->
  Permutation arrived (splitPages hash total index chunks) ->
  sort_Slice page_less arrived = splitPages hash total index chunks.
Proof.
  intros Hspec Hperm. destruct (Hspec arrived) as [Hp Hs].
  symmetry. apply (sorted_unique (fun a b => page_less b a = false)).
  - intros a b Ha Hb Hab Hba. eapply splitPages_Page_inj; try eassumption.
    unfold page_less in *. apply Z.ltb_ge in Hab, Hba. lia.
  - apply splitPages_sorted.
  - exact Hs.
  - etransitivity; [apply Permutation_sym, Hperm | exact Hp].
Qed.

End DispatcherFacts.

(** Insertion sort meets what the code needs of sort.Slice. *)
Lemma insert_page_perm x l : Permutation (x :: l) (Ref.insert_page page_less x l).
Proof.
  induction l as [|y l IH]; cbn; [reflexivity|].
  destruct (page_less x y); [reflexivity|].
  etransitivity; [apply perm_swap|]. now apply perm_skip.
Qed.

Lemma insert_page_sorted x l :
  StronglySorted (fun a b => page_less b a = false) l ->
  StronglySorted (fun a b => page_less b a = false) (Ref.insert_page page_less x l).
Proof.
  induction l as [|y l IH]; intros Hs; cbn.
  - repeat constructor.
  - apply StronglySorted_inv in Hs as [Hs Hy].
    destruct (page_less x y) eqn:Hxy.
    + constructor; [now constructor|].
      unfold page_less in *. apply Z.ltb_lt in Hxy.
      constructor; [apply Z.ltb_ge; lia|].
      eapply List.Forall_impl; [|exact Hy]. cbn. intros z Hz.
      apply Z.ltb_ge in Hz. apply Z.ltb_ge. lia.
    + constructor; [now apply IH|].
      eapply Permutation_Forall; [apply insert_page_perm|].
      constructor; assumption.
Qed.

Lemma Ref_sort_Slice_spec : sort_Slice_spec Ref.sort_Slice.
Proof.
  intros l. unfold Ref.sort_Slice. induction l as [|x l [IHp IHs]]; cbn.
  - split; constructor.
  - split.
    + etransitivity; [apply perm_skip, IHp | apply insert_page_perm].
    + now apply insert_page_sorted.
Qed.

Section DispatcherClaims.

Context {Header : Type}.
Variable range_order : gset (list byte) -> list (list byte).
Variable rlp_encode : @extWitness Header -> list byte.
Variable rlp_decode : list byte -> option (@extWitness Header).
Variable sort_Slice : (WitnessPageResponse -> WitnessPageResponse -> bool) ->
                      list WitnessPageResponse -> list WitnessPageResponse.

(** C1. The canonical bytes of a witness are cut into pages 0..N-1. Handed
    all N pages in any arrival order, reconstructWitness sorts them into
    ascending page order, concatenates their payloads and RLP-decodes the
    result into that witness: the arrival order has no effect. (sort.Slice is
    any sort that rearranges into non-descending order, and the RLP codec
    round-trips on the witness.) *)
Theorem reconstructWitness_any_arrival_order
    (hash : Hash) (chunks : list (list byte)) (arrived : list WitnessPageResponse)
    (w : @Witness Header) :
  sort_Slice_spec sort_Slice ->
  Permutation arrived (pagesOf hash chunks) ->
  concat chunks = rlp_encode (toExtWitness range_order w) ->
  rlp_decode (rlp_encode (toExtWitness range_order w)) = Some (toExtWitness range_order w) ->
  Permutation (range_order (State w)) (elements (State w)) ->
  reconstructWitness rlp_decode sort_Slice arrived = (pagesOf hash chunks, inl w).
Proof.
  intros Hsort Hperm Hsplit Hrlp Horder.
  unfold reconstructWitness, pagesOf in *.
  rewrite (sort_Slice_pagesOf sort_Slice _ _ _ _ _ Hsort Hperm).
  rewrite splitPages_Data, Hsplit. unfold DecodeRLP. rewrite Hrlp.
  do 2 f_equal. unfold fromExtWitness, toExtWitness. cbn.
  rewrite (list_to_set_range_order range_order _ Horder). destruct w; reflexivity.
Qed.

End DispatcherClaims.

(** ** The dispatcher on concrete pages *)

Definition hashH : Hash := 123%N.

(** The RLP bytes of [witnessA], cut after 10 and after 30 bytes. *)
Definition bytesA : list byte := Ref.rlp_encode (toExtWitness Ref.range_order witnessA).
Definition chunksA : list (list byte) :=
  [firstn 10 bytesA; firstn 20 (skipn 10 bytesA); skipn 30 bytesA].

Definition page0 : WitnessPageResponse :=
  {| Data := firstn 10 bytesA; resp_Hash := hashH; Page := 0; TotalPages := 3 |}.
Definition page1 : WitnessPageResponse :=
  {| Data := firstn 20 (skipn 10 bytesA); resp_Hash := hashH; Page := 1; TotalPages := 3 |}.
Definition page2 : WitnessPageResponse :=
  {| Data := skipn 30 bytesA; resp_Hash := hashH; Page := 2; TotalPages := 3 |}.

Lemma pagesOf_chunksA : pagesOf hashH chunksA = [page0; page1; page2].
Proof. reflexivity. Qed.

(** C1, at the three pages of [witnessA] arriving in the order 2, 0, 1. *)
Lemma reconstructWitness_any_arrival_order_witness :
  reconstructWitness Ref.rlp_decode Ref.sort_Slice [page2; page0; page1]
  = (pagesOf hashH chunksA, inl witnessA).
Proof.
  apply (reconstructWitness_any_arrival_order Ref.range_order Ref.rlp_encode
           Ref.rlp_decode Ref.sort_Slice hashH chunksA [page2; page0; page1] witnessA).
  - exact Ref_sort_Slice_spec.
  - rewrite pagesOf_chunksA.
    apply (Permutation_cons_append [page0; page1] page2).
  - vm_compute. reflexivity.
  - vm_compute. reflexivity.
  - reflexivity.
Defined.

(** * The semaphore *)

Lemma len_app {A} (l1 l2 : list A) : len (l1 ++ l2) = len l1 + len l2.
Proof. unfold len. rewrite length_app. lia. Qed.

Lemma len_cons_succ {A} (x : A) (l : list A) : len (x :: l) = len l + 1.
Proof. unfold len. cbn [length]. lia. Qed.

Lemma len_nonneg {A} (l : list A) : 0 <= len l.
Proof. unfold len. lia. Qed.

(** Every sub-request between its RequestWitness call and the end of its
    handling holds one permit of the semaphore. *)
Definition permits_accounted (s : Sched) : Prop :=
  len (witReqSem s) = Z.of_nat (acquired s) + Z.of_nat (refused s) + inFlight s
  /\ len (witReqSem s) <= DefaultConcurrentRequestsPerPeer.

Lemma step_permits_accounted s s' :
  step s s' -> permits_accounted s -> permits_accounted s'.
Proof.
  unfold permits_accounted, inFlight, DefaultConcurrentRequestsPerPeer.
  intros Hstep [Heq Hle].
  destruct Hstep;
    repeat match goal with
    | H : _ = _ |- _ => rewrite H in *
    end;
    cbn [witReqSem acquired refused atPeer forwarding witReqResCh handling] in *;
    rewrite ?len_app, ?len_cons_succ in *;
    change (len (@nil Z)) with 0 in *;
    change (len (@nil WitnessPageRequest)) with 0 in *;
    unfold DefaultConcurrentRequestsPerPeer in *;
    split; lia.
Qed.

(** C7. In every state the goroutines of one batch can reach, each sub-request
    in flight holds a permit of witReqSem (taken before RequestWitness is
    called, given back after the response has been handled), so at most
    DefaultConcurrentRequestsPerPeer = 5 sub-requests are in flight, however
    many pages the batch asks for. *)
Theorem inFlight_bounded (s : Sched) :
  reachable s ->
  permits_accounted s /\ inFlight s <= DefaultConcurrentRequestsPerPeer.
Proof.
  intros Hr.
  assert (Hp : permits_accounted s).
  { induction Hr as [|s s' _ IH Hstep].
    - split; [reflexivity | vm_compute; discriminate].
    - eapply step_permits_accounted; eassumption. }
  split; [exact Hp|]. destruct Hp as [Heq Hle]. lia.
Qed.

(** A state two steps in: one permit taken, one request at the peer. *)
Definition schedOneAtPeer : Sched :=
  {| witReqSem := [1]; acquired := 0; refused := 0;
     atPeer := [{| req_Hash := hashH; req_Page := 0 |}];
     forwarding := []; witReqResCh := []; handling := None |}.

Lemma schedOneAtPeer_reachable : reachable schedOneAtPeer.
Proof.
  pose (s1 := {| witReqSem := [1]; acquired := 1; refused := 0; atPeer := [];
                 forwarding := []; witReqResCh := []; handling := None |}).
  apply (reachable_step s1).
  - apply (reachable_step initSched); [apply reachable_init|].
    exact (step_acquire initSched eq_refl).
  - exact (step_request s1 0 {| req_Hash := hashH; req_Page := 0 |} eq_refl).
Defined.

(** C7, at [schedOneAtPeer]. *)
Lemma inFlight_bounded_witness :
  permits_accounted schedOneAtPeer
  /\ inFlight schedOneAtPeer <= DefaultConcurrentRequestsPerPeer.
Proof. exact (inFlight_bounded schedOneAtPeer schedOneAtPeer_reachable). Defined.

(** * Close *)

Section CloseClaims.

Context {witRequest : Type}.
Variable witRequest_Close : witRequest -> witRequest * option error.


End CloseClaims.




(** * The bookkeeping of one batch *)

(** The batch with its request list and request counters replaced. *)
Definition withRequests {Header} (b : @Batch Header)
    (reqs : list WitnessPageRequest) (total : gmap Hash Z) : @Batch Header :=
  {| witReqs := reqs;
     witTotalPages := witTotalPages b;
     witTotalRequest := total;
     failedRequests := failedRequests b;
     receivedWitPages := receivedWitPages b;
     reconstructedWitness := reconstructedWitness b |}.

Definition pageRequest (hash : Hash) (page : Z) : WitnessPageRequest :=
  {| req_Hash := hash; req_Page := page |}.

Lemma page_range_app start n m :
  page_range start (n + m) = page_range start n ++ page_range (start + Z.of_nat n) m.
Proof.
  revert start. induction n as [|n IH]; intros start.
  - cbn. now rewrite Z.add_0_r.
  - cbn [Nat.add page_range app]. rewrite IH. do 3 f_equal. lia.
Qed.

Lemma in_page_range start n p :
  In p (page_range start n) <-> start <= p < start + Z.of_nat n.
Proof.
  revert start. induction n as [|n IH]; intros start; cbn [page_range In].
  - lia.
  - rewrite IH. lia.
Qed.

Lemma NoDup_page_range start n : List.NoDup (page_range start n).
Proof.
  revert start. induction n as [|n IH]; intros start; cbn; constructor; [|apply IH].
  rewrite in_page_range. lia.
Qed.

Section BuildFacts.

Context {Header : Type}.
Variable RequestWitness_ok : WitnessPageRequest -> bool.
Hypothesis peer_accepts : forall r, RequestWitness_ok r = true.

Abbreviation doRequest := (@doWitnessRequest Header RequestWitness_ok).
Abbreviation build := (@buildWitnessRequests Header RequestWitness_ok).

Lemma doWitnessRequest_accepted hash page (b : @Batch Header) :
  doRequest hash page b =
  (withRequests b (witReqs b ++ [pageRequest hash page])
     (if default 0 (witTotalRequest b !! hash) <=? page
      then <[hash := wrapU64 (default 0 (witTotalRequest b !! hash) + 1)]> (witTotalRequest b)
      else witTotalRequest b), None).
Proof. unfold doWitnessRequest. rewrite peer_accepts. reflexivity. Qed.

(** The loop [for page := start; page < end; page++] over pages not yet
    requested: every page goes out and the counter ends at [end]. *)
Lemma request_new_pages hash (n : nat) (b : @Batch Header) start :
  default 0 (witTotalRequest b !! hash) = start ->
  0 <= start -> start + Z.of_nat n < 2 ^ 64 ->
  forEach (doRequest hash) (page_range start n) b =
  (withRequests b (witReqs b ++ map (pageRequest hash) (page_range start n))
     (match n with
      | O => witTotalRequest b
      | S _ => <[hash := start + Z.of_nat n]> (witTotalRequest b)
      end), None).
Proof.
  revert b start. induction n as [|n IH]; intros b start Hstart H0 Hmax.
  - cbn. rewrite app_nil_r. destruct b; reflexivity.
  - cbn [page_range forEach]. rewrite doWitnessRequest_accepted, Hstart, Z.leb_refl.
    assert (Hw : wrapU64 (start + 1) = start + 1).
    { unfold wrapU64. apply Z.mod_small. lia. }
    rewrite Hw, (IH _ (start + 1)); cbn [withRequests witTotalRequest witReqs];
      [|rewrite lookup_insert_eq; reflexivity | lia | lia].
    unfold withRequests. cbn. rewrite <- app_assoc. cbn [app].
    destruct n.
    + replace (start + Z.of_nat 1) with (start + 1) by lia. reflexivity.
    + rewrite insert_insert_eq.
      replace (start + 1 + Z.of_nat (S n)) with (start + Z.of_nat (S (S n))) by lia.
      reflexivity.
Qed.

End BuildFacts.

Section RetryFacts.

Context {Header : Type}.
Variable RequestWitness_ok : WitnessPageRequest -> bool.
Hypothesis peer_accepts : forall r, RequestWitness_ok r = true.

Abbreviation retry := (@retryFailed Header RequestWitness_ok).

Lemma elem_of_failed_keys (F : gmap Hash (gmap Z witReqRetryCount)) hash page :
  (hash, page) ∈ failed_keys F <->
  exists inner rc, F !! hash = Some inner /\ inner !! page = Some rc.
Proof.
  unfold failed_keys. rewrite list_elem_of_bind. split.
  - intros ([h inner] & Hin & Hentry). cbn in Hin.
    apply list_elem_of_fmap in Hin as ([p rc] & Heq & Hp). cbn in Heq.
    injection Heq as -> ->.
    apply elem_of_map_to_list in Hentry, Hp. eauto.
  - intros (inner & rc & HF & Hi). exists (hash, inner). split.
    + cbn. apply list_elem_of_fmap. exists (page, rc). split; [reflexivity|].
      now apply elem_of_map_to_list.
    + now apply elem_of_map_to_list.
Qed.

Lemma NoDup_failed_keys (F : gmap Hash (gmap Z witReqRetryCount)) :
  NoDup (failed_keys F).
Proof.
  unfold failed_keys. apply NoDup_bind.
  - intros [h1 i1] [h2 i2] [h p] H1 H2 Hy1 Hy2. cbn in *.
    apply list_elem_of_fmap in Hy1 as ([p1 r1] & E1 & _).
    apply list_elem_of_fmap in Hy2 as ([p2 r2] & E2 & _).
    cbn in *. injection E1 as -> ->. injection E2 as -> _.
    apply elem_of_map_to_list in H1, H2. congruence.
  - intros [h inner] _. cbn.
    apply (NoDup_fmap_2_strong _).
    + intros [p1 r1] [p2 r2] H1 H2 Heq. cbn in Heq. injection Heq as ->.
      apply elem_of_map_to_list in H1, H2. congruence.
    + apply NoDup_map_to_list.
  - apply NoDup_map_to_list.
Qed.

(** The entry of [(hash, page)] exists in the map of maps. *)
Definition recorded (b : @Batch Header) (hash : Hash) (page : Z) : Prop :=
  exists inner rc, failedRequests b !! hash = Some inner /\ inner !! page = Some rc.

Lemma lookupRetry_storeRetry (b : @Batch Header) h p rc h' p' :
  lookupRetry (storeRetry b h p rc) h' p' =
  if decide ((h, p) = (h', p')) then rc else lookupRetry b h' p'.
Proof.
  unfold lookupRetry, storeRetry. cbn [failedRequests].
  destruct (decide (h = h')) as [<-|Hh].
  - rewrite lookup_insert_eq. cbn [from_option id].
    destruct (decide (p = p')) as [<-|Hp].
    + rewrite lookup_insert_eq. now rewrite decide_True.
    + rewrite lookup_insert_ne by exact Hp. rewrite decide_False by congruence.
      reflexivity.
  - rewrite lookup_insert_ne by exact Hh. rewrite decide_False by congruence.
    reflexivity.
Qed.

Lemma recorded_storeRetry (b : @Batch Header) h p rc h' p' :
  recorded (storeRetry b h p rc) h' p' <-> (h, p) = (h', p') \/ recorded b h' p'.
Proof.
  unfold recorded, storeRetry. cbn [failedRequests].
  destruct (decide (h = h')) as [<-|Hh].
  - rewrite lookup_insert_eq. destruct (decide (p = p')) as [<-|Hp].
    + split; [auto|]. intros _. eexists _, rc. split; [reflexivity|].
      apply lookup_insert_eq.
    + split.
      * intros (inner & rc' & [= <-] & Hi). rewrite lookup_insert_ne in Hi by exact Hp.
        right. destruct (failedRequests b !! h) as [inner|]; [eauto|].
        cbn in Hi. rewrite lookup_empty in Hi. discriminate.
      * intros [[= Hp'] | (inner & rc' & HF & Hi)]; [contradiction|].
        rewrite HF. cbn. eexists _, rc'. split; [reflexivity|].
        now rewrite lookup_insert_ne.
  - rewrite lookup_insert_ne by exact Hh. split; [auto|].
    intros [[= Hh' _] | H]; [contradiction | exact H].
Qed.

Lemma storeRetry_same (b : @Batch Header) h p :
  recorded b h p -> storeRetry b h p (lookupRetry b h p) = b.
Proof.
  intros (inner & rc & HF & Hi). unfold lookupRetry, storeRetry.
  rewrite HF. cbn [from_option id]. rewrite Hi. cbn [from_option id].
  rewrite (insert_id inner) by exact Hi. rewrite insert_id by exact HF.
  destruct b; reflexivity.
Qed.

(** No retry is pending. *)
Definition quiet (b : @Batch Header) : Prop :=
  forall h p, ShouldRetryAgain (lookupRetry b h p) = false.

(** Over entries without a pending retry the second loop changes nothing. *)
Lemma retry_nothing_pending (keys : list (Hash * Z)) (b : @Batch Header) :
  (forall h p, (h, p) ∈ keys -> recorded b h p /\ ShouldRetryAgain (lookupRetry b h p) = false) ->
  forEach retry keys b = (b, None).
Proof.
  induction keys as [|[h p] keys IH]; intros Hkeys; [reflexivity|].
  cbn [forEach]. unfold retryFailed at 1.
  destruct (Hkeys h p) as [Hrec Hflag]; [left|].
  rewrite Hflag, storeRetry_same by exact Hrec.
  apply IH. intros h' p' Hin. apply Hkeys. now right.
Qed.

Lemma forEach_app {A S} (body : A -> S -> S * option error) l1 l2 (s : S) :
  forEach body (l1 ++ l2) s =
  match forEach body l1 s with
  | (s, Some e) => (s, Some e)
  | (s, None) => forEach body l2 s
  end.
Proof.
  revert s. induction l1 as [|x l1 IH]; intros s; [reflexivity|].
  cbn [app forEach]. destruct (body x s) as [s' [e|]]; [reflexivity|apply IH].
Qed.

(** The batch after the retry of one page: the request is appended and the
    flag of the entry cleared. *)
Definition retried (b : @Batch Header) (h : Hash) (p : Z) : @Batch Header :=
  storeRetry (withRequests b (witReqs b ++ [pageRequest h p]) (witTotalRequest b)) h p
    {| FailCount := FailCount (lookupRetry b h p); ShouldRetryAgain := false |}.

(** With exactly one retry pending, for a page already counted as requested,
    the second loop sends that one request. *)
Lemma retry_one_pending (b : @Batch Header) h p :
  recorded b h p ->
  ShouldRetryAgain (lookupRetry b h p) = true ->
  (forall h' p', (h', p') <> (h, p) -> ShouldRetryAgain (lookupRetry b h' p') = false) ->
  p < default 0 (witTotalRequest b !! h) ->
  forEach retry (failed_keys (failedRequests b)) b = (retried b h p, None).
Proof.
  intros Hrec Hflag Hothers Hp.
  pose proof (NoDup_failed_keys (failedRequests b)) as Hnd.
  assert (Hin : (h, p) ∈ failed_keys (failedRequests b))
    by now apply elem_of_failed_keys.
  assert (Hall : forall h' p', (h', p') ∈ failed_keys (failedRequests b) -> recorded b h' p')
    by (intros h' p'; apply elem_of_failed_keys).
  apply list_elem_of_split in Hin as (pre & post & Hsplit).
  rewrite Hsplit in *. clear Hsplit.
  apply NoDup_app in Hnd as (_ & Hpre & Hpost). apply NoDup_cons in Hpost as [Hpost _].
  rewrite forEach_app, retry_nothing_pending.
  2:{ intros h' p' Hin. split; [apply Hall, elem_of_app; now left|].
      apply Hothers. intros [= -> ->]. eapply Hpre; [exact Hin | left]. }
  cbn [forEach]. unfold retryFailed at 1. rewrite Hflag.
  rewrite (doWitnessRequest_accepted RequestWitness_ok peer_accepts).
  rewrite (proj2 (Z.leb_gt _ _)) by exact Hp.
  fold (retried b h p).
  apply retry_nothing_pending.
  intros h' p' Hin.
  assert (Hne : (h, p) <> (h', p')) by (intros [= <- <-]; contradiction).
  unfold retried. rewrite lookupRetry_storeRetry, decide_False by exact Hne.
  split.
  - apply recorded_storeRetry. right. apply Hall, elem_of_app. right. now right.
  - apply Hothers. congruence.
Qed.

End RetryFacts.

(** * One batch against a peer

    The adapter loop with its peer: [inflight] holds the requests handed to
    the peer and not yet answered; [deliver] lets the peer answer one of them
    (any one: the order of arrival is the peer's) and runs receiveWitnessPage
    on the answer, after which the requests that call has sent are in flight
    as well. *)

Section Run.

Context {Header : Type}.
Variable rlp_decode : list byte -> option (@extWitness Header).
Variable sort_Slice : (WitnessPageResponse -> WitnessPageResponse -> bool) ->
                      list WitnessPageResponse -> list WitnessPageResponse.
Variable RequestWitness_ok : WitnessPageRequest -> bool.

Record Sys := { batch : @Batch Header; inflight : list WitnessPageRequest }.

Definition startSys (hashes : list Hash) : Sys :=
  let b := startBatch RequestWitness_ok hashes in
  {| batch := b; inflight := witReqs b |}.

Definition deliver (hashes : list Hash) (i : nat) (res : Res) (s : Sys) : Sys :=
  match inflight s !! i with
  | None => s
  | Some r =>
    let b := fst (receiveWitnessPage rlp_decode sort_Slice RequestWitness_ok hashes
                    {| Request := [r]; Response := res |} (batch s)) in
    {| batch := b;
       inflight := delete i (inflight s)
                   ++ drop (length (witReqs (batch s))) (witReqs b) |}
  end.

(** A run: the answers of the peer, each with the position in [inflight] of
    the request it answers. *)
Definition runBatch (hashes : list Hash) (answers : list (nat * Res)) : Sys :=
  fold_left (fun s '(i, res) => deliver hashes i res s) answers (startSys hashes).

(** A peer that serves the witness of [hash] cut into [chunks]: it answers a
    request for a page either with that page or, as the peer of the tests
    does when it is programmed to fail, with a response of another type. *)
Inductive answers (hash : Hash) (chunks : list (list byte))
  : WitnessPageRequest -> Res -> Prop :=
| answers_failure r : answers hash chunks r OtherRes
| answers_page page pg :
    0 <= page ->
    pagesOf hash chunks !! Z.to_nat page = Some pg ->
    answers hash chunks (pageRequest hash page) (WitnessPacketRLPPacket [pg]).

(** The states a batch for the one hash [hash] reaches with such a peer. *)
Inductive reachableSys (hash : Hash) (chunks : list (list byte)) : Sys -> Prop :=
| reachableSys_start : reachableSys hash chunks (startSys [hash])
| reachableSys_deliver s i r res :
    reachableSys hash chunks s ->
    inflight s !! i = Some r ->
    answers hash chunks r res ->
    reachableSys hash chunks (deliver [hash] i res s).

(** How often the request for [page] of [hash] has failed so far. *)
Definition failCount (s : Sys) (hash : Hash) (page : Z) : Z :=
  FailCount (lookupRetry (batch s) hash page).

End Run.

Section ReceiveFacts.

Context {Header : Type}.
Variable rlp_decode : list byte -> option (@extWitness Header).
Variable sort_Slice : (WitnessPageResponse -> WitnessPageResponse -> bool) ->
                      list WitnessPageResponse -> list WitnessPageResponse.
Variable RequestWitness_ok : WitnessPageRequest -> bool.

Abbreviation receive := (receiveWitnessPage rlp_decode sort_Slice RequestWitness_ok).
Abbreviation receive1 := (receivePage rlp_decode sort_Slice RequestWitness_ok).

(** What a build pass leaves alone: the page totals, the received pages, the
    reconstructed witnesses and every failure count. *)
Definition sameBooks (b b' : @Batch Header) : Prop :=
  witTotalPages b' = witTotalPages b
  /\ receivedWitPages b' = receivedWitPages b
  /\ reconstructedWitness b' = reconstructedWitness b
  /\ forall h p, FailCount (lookupRetry b' h p) = FailCount (lookupRetry b h p).

Lemma sameBooks_refl b : sameBooks b b.
Proof. repeat split. Qed.

Lemma sameBooks_trans b1 b2 b3 : sameBooks b1 b2 -> sameBooks b2 b3 -> sameBooks b1 b3.
Proof.
  intros (A1 & A2 & A3 & A4) (B1 & B2 & B3 & B4).
  repeat split; try congruence; intros h p; now rewrite B4.
Qed.

Lemma forEach_sameBooks {A} (body : A -> @Batch Header -> @Batch Header * option error) :
  (forall x b, sameBooks b (fst (body x b))) ->
  forall l b, sameBooks b (fst (forEach body l b)).
Proof.
  intros Hbody l. induction l as [|x l IH]; intros b; [apply sameBooks_refl|].
  cbn [forEach]. specialize (Hbody x b). destruct (body x b) as [b' [e|]].
  - exact Hbody.
  - eapply sameBooks_trans; [exact Hbody | apply IH].
Qed.

Lemma doWitnessRequest_sameBooks hash page b :
  sameBooks b (fst (doWitnessRequest RequestWitness_ok hash page b)).
Proof.
  unfold doWitnessRequest. destruct (negb _); cbn; repeat split.
Qed.

Lemma retryFailed_sameBooks key b :
  sameBooks b (fst (retryFailed RequestWitness_ok key b)).
Proof.
  destruct key as [hash page]. unfold retryFailed.
  pose proof (doWitnessRequest_sameBooks hash page b) as Hdo.
  destruct (ShouldRetryAgain (lookupRetry b hash page)).
  - destruct (doWitnessRequest RequestWitness_ok hash page b) as [b' [e|]]; [exact Hdo|].
    cbn [fst] in *. destruct Hdo as (A1 & A2 & A3 & A4).
    repeat split; try assumption. intros h p.
    rewrite lookupRetry_storeRetry. destruct (decide _) as [[= <- <-]|]; [|apply A4].
    reflexivity.
  - cbn [fst]. repeat split. intros h p.
    rewrite lookupRetry_storeRetry. destruct (decide _) as [[= <- <-]|]; reflexivity.
Qed.

Lemma spawnBuild_sameBooks hashes b :
  sameBooks b (spawnBuild RequestWitness_ok hashes b).
Proof.
  unfold spawnBuild, buildWitnessRequests.
  pose proof (forEach_sameBooks (requestMissing RequestWitness_ok)) as H1.
  specialize (H1 (fun x b => forEach_sameBooks _ (doWitnessRequest_sameBooks x) _ b) hashes b).
  destruct (forEach (requestMissing RequestWitness_ok) hashes b) as [b1 [e|]];
    [exact H1|].
  eapply sameBooks_trans; [exact H1|].
  apply forEach_sameBooks, retryFailed_sameBooks.
Qed.

End ReceiveFacts.

Section ReceiveClaims.

Context {Header : Type}.
Variable rlp_decode : list byte -> option (@extWitness Header).
Variable sort_Slice : (WitnessPageResponse -> WitnessPageResponse -> bool) ->
                      list WitnessPageResponse -> list WitnessPageResponse.
Variable RequestWitness_ok : WitnessPageRequest -> bool.

(** C5 (amended). A page whose payload is zero bytes long is skipped: a packet
    of such pages makes receiveWitnessPage return nil and leaves the whole
    batch as it was, so the page is neither recorded nor counted as a failure
    nor requested again. *)
Theorem empty_payload_skipped
    (hashes : list Hash) (requests : list WitnessPageRequest)
    (pages : list WitnessPageResponse) (b : @Batch Header) :
  Forall (fun page => Data page = []) pages ->
  receiveWitnessPage rlp_decode sort_Slice RequestWitness_ok hashes
    {| Request := requests; Response := WitnessPacketRLPPacket pages |} b = (b, None).
Proof.
  intros Hempty. unfold receiveWitnessPage. cbn [Response].
  assert (Hloop : forEach (receivePage rlp_decode sort_Slice RequestWitness_ok hashes)
                          pages b = (b, None)).
  { induction Hempty as [|page pages Hpage _ IH]; [reflexivity|].
    cbn [forEach]. unfold receivePage at 1. rewrite Hpage. exact IH. }
  rewrite Hloop. reflexivity.
Qed.


End ReceiveClaims.

(** ** Pages that disagree, pages that are empty *)

Definition accepting (r : WitnessPageRequest) : bool := true.

Definition refRun (answers : list (nat * Res)) : @Sys Ref.Header :=
  runBatch Ref.rlp_decode Ref.sort_Slice accepting [hashH] answers.

Definition packet (page : WitnessPageResponse) : Res := WitnessPacketRLPPacket [page].


(** An empty page 0. *)
Definition emptyPage : WitnessPageResponse :=
  {| Data := []; resp_Hash := hashH; Page := 0; TotalPages := 1 |}.


(** C5 as stated fails on an empty page 0: no failure is counted and nothing
    is requested again; the batch ends without the witness. *)
Lemma empty_page_not_retried :
  let s := refRun [(0%nat, packet emptyPage)] in
  failedRequests (batch s) = ∅
  /\ witReqs (batch s) = [pageRequest hashH 0]
  /\ inflight s = []
  /\ aggregate (batch s) = [].
Proof. vm_compute. repeat split. Qed.

(** C5, at a packet of two empty pages. *)
Lemma empty_payload_skipped_witness :
  receiveWitnessPage Ref.rlp_decode Ref.sort_Slice accepting [hashH]
    {| Request := [pageRequest hashH 0];
       Response := WitnessPacketRLPPacket [emptyPage; emptyPage] |}
    (startBatch accepting [hashH])
  = (startBatch accepting [hashH], None).
Proof.
  apply (empty_payload_skipped Ref.rlp_decode Ref.sort_Slice accepting [hashH]
           [pageRequest hashH 0] [emptyPage; emptyPage] (startBatch accepting [hashH])).
  repeat constructor.
Defined.

(** * The retry policy *)

Lemma splitPages_lookup hash total index chunks (i : nat) pg :
  splitPages hash total index chunks !! i = Some pg ->
  Page pg = index + Z.of_nat i /\ resp_Hash pg = hash /\ TotalPages pg = total
  /\ chunks !! i = Some (Data pg).
Proof.
  revert index i. induction chunks as [|c chunks IH]; intros index i; [discriminate|].
  destruct i as [|i]; cbn.
  - intros [= <-]. cbn. repeat split. lia.
  - intros H. apply IH in H as (-> & ? & ? & ?). repeat split; auto. lia.
Qed.



Section PagesOf.

Variable hash : Hash.
Variable chunks : list (list byte).
Hypothesis chunks_nonempty : Forall (fun c => c <> []) chunks.

Lemma elem_of_pagesOf pg :
  pg ∈ pagesOf hash chunks ->
  resp_Hash pg = hash /\ TotalPages pg = len chunks /\ Data pg <> []
  /\ 0 <= Page pg < len chunks
  /\ pagesOf hash chunks !! Z.to_nat (Page pg) = Some pg.
Proof.
  intros Hin. apply list_elem_of_lookup in Hin as [i Hi].
  pose proof (lookup_lt_Some _ _ _ Hi) as Hlt.
  unfold pagesOf in *. rewrite splitPages_length in Hlt.
  destruct (splitPages_lookup _ _ _ _ _ _ Hi) as (Hp & Hh & Ht & Hc).
  repeat split; auto.
  - rewrite Forall_forall in chunks_nonempty. apply chunks_nonempty.
    eapply list_elem_of_lookup_2, Hc.
  - lia.
  - unfold len. lia.
  - rewrite Hp, Z.add_0_l, Nat2Z.id. exact Hi.
Qed.

Lemma pagesOf_lookup_page (page : Z) pg :
  0 <= page -> pagesOf hash chunks !! Z.to_nat page = Some pg ->
  Page pg = page /\ pg ∈ pagesOf hash chunks.
Proof.
  intros H0 Hl. split; [|eapply list_elem_of_lookup_2, Hl].
  apply splitPages_lookup in Hl as (-> & _). lia.
Qed.



End PagesOf.

Section OneHash.

Context {Header : Type}.
Variable RequestWitness_ok : WitnessPageRequest -> bool.
Hypothesis peer_accepts : forall r, RequestWitness_ok r = true.
Variable hash : Hash.

(** The number of pages of [hash] requested so far, and the number up to
    which buildWitnessRequests requests them. *)
Definition requested (b : @Batch Header) : Z := default 0 (witTotalRequest b !! hash).

Definition target (b : @Batch Header) : Z :=
  match witTotalPages b !! hash with
  | Some e => if e =? 0 then DefaultPagesRequestPerWitness else e
  | None => DefaultPagesRequestPerWitness
  end.

(** The batch after the first loop of a build pass over the one hash. *)
Definition withNewPages (b : @Batch Header) : @Batch Header :=
  withRequests b
    (witReqs b ++ map (pageRequest hash)
                      (page_range (requested b) (Z.to_nat (target b - requested b))))
    (match Z.to_nat (target b - requested b) with
     | O => witTotalRequest b
     | S _ => <[hash := requested b + Z.of_nat (Z.to_nat (target b - requested b))]>
                (witTotalRequest b)
     end).

Lemma requestMissing_one (b : @Batch Header) :
  0 <= requested b < 2 ^ 64 -> target b < 2 ^ 64 ->
  forEach (requestMissing RequestWitness_ok) [hash] b = (withNewPages b, None).
Proof.
  intros HR HE. cbn [forEach]. unfold requestMissing.
  fold (requested b). fold (target b).
  rewrite (request_new_pages RequestWitness_ok peer_accepts hash _ b (requested b));
    [reflexivity | reflexivity | lia | lia].
Qed.

(** A build pass with no retry pending requests the new pages and nothing
    else. *)
Lemma spawnBuild_quiet (b : @Batch Header) :
  quiet b -> 0 <= requested b < 2 ^ 64 -> target b < 2 ^ 64 ->
  spawnBuild RequestWitness_ok [hash] b = withNewPages b.
Proof.
  intros Hq HR HE. unfold spawnBuild, buildWitnessRequests.
  rewrite requestMissing_one by assumption.
  rewrite (retry_nothing_pending RequestWitness_ok); [reflexivity|].
  intros h p Hin. split; [now apply elem_of_failed_keys in Hin | apply Hq].
Qed.

(** A build pass with one retry pending and no new pages to request sends
    that one request again. *)
Lemma spawnBuild_retry (b : @Batch Header) p :
  requested b = target b -> 0 <= requested b < 2 ^ 64 ->
  recorded b hash p ->
  ShouldRetryAgain (lookupRetry b hash p) = true ->
  (forall h' p', (h', p') <> (hash, p) -> ShouldRetryAgain (lookupRetry b h' p') = false) ->
  p < requested b ->
  spawnBuild RequestWitness_ok [hash] b = retried b hash p.
Proof.
  intros Heq HR Hrec Hflag Hothers Hp. unfold spawnBuild, buildWitnessRequests.
  rewrite requestMissing_one by lia.
  assert (Hsame : withNewPages b = b).
  { unfold withNewPages. rewrite Heq, Z.sub_diag. cbn. rewrite app_nil_r.
    destruct b; reflexivity. }
  rewrite Hsame.
  rewrite (retry_one_pending RequestWitness_ok peer_accepts b hash p); auto.
Qed.

End OneHash.

Section Retry.

Context {Header : Type}.
Variable rlp_decode : list byte -> option (@extWitness Header).
Variable sort_Slice : (WitnessPageResponse -> WitnessPageResponse -> bool) ->
                      list WitnessPageResponse -> list WitnessPageResponse.
Variable RequestWitness_ok : WitnessPageRequest -> bool.
Variable hash : Hash.
Variable chunks : list (list byte).
Variable decoded : @Witness Header.

Hypothesis peer_accepts : forall r, RequestWitness_ok r = true.
Hypothesis sort_ok : sort_Slice_spec sort_Slice.
Hypothesis chunks_nonempty : Forall (fun c => c <> []) chunks.
Hypothesis some_chunk : chunks <> [].
Hypothesis chunks_int : len chunks <= max_int64.
Hypothesis chunks_decode :
  DecodeRLP rlp_decode newWitness (concat chunks) = (decoded, None).

Abbreviation receiveFrom :=
  (receiveWitnessPage rlp_decode sort_Slice RequestWitness_ok [hash]).

Definition receivedPages (b : @Batch Header) : list WitnessPageResponse :=
  default [] (receivedWitPages b !! hash).

Lemma len_chunks_pos : 1 <= len chunks.
Proof. unfold len. destruct chunks; [contradiction|]. cbn [length]. lia. Qed.

Lemma wrap64_len_chunks : int_of_uint64 (len chunks) = len chunks.
Proof.
  unfold int_of_uint64. apply wrap64_small. pose proof len_chunks_pos.
  split; [|exact chunks_int]. lia.
Qed.

(** All pages of the split, in whatever order, reconstruct to the witness. *)
Lemma reconstruct_all_pages (l : list WitnessPageResponse) :
  NoDup l -> (forall pg, pg ∈ l -> pg ∈ pagesOf hash chunks) ->
  length l = length chunks ->
  reconstructWitness rlp_decode sort_Slice l = (pagesOf hash chunks, inl decoded).
Proof.
  intros Hnd Hsub Hlen.
  assert (Hperm : Permutation l (pagesOf hash chunks)).
  { apply submseteq_length_Permutation; [now apply NoDup_submseteq|].
    unfold pagesOf. rewrite splitPages_length. lia. }
  unfold reconstructWitness.
  rewrite (sort_Slice_pagesOf sort_Slice hash (len chunks) 0 chunks l sort_ok Hperm).
  fold (pagesOf hash chunks). unfold pagesOf at 1. rewrite splitPages_Data.
  rewrite chunks_decode. reflexivity.
Qed.

(** A failed answer to the request for page [p]: the failure is counted, and
    the request goes out again when the count is at most the ceiling. *)
Lemma receive_failure (b : @Batch Header) p :
  quiet b -> requested hash b = target hash b -> 0 <= p < requested hash b ->
  requested hash b < 2 ^ 64 ->
  0 <= FailCount (lookupRetry b hash p) <= 3 ->
  let fc := FailCount (lookupRetry b hash p) + 1 in
  let b1 := storeRetry b hash p {| FailCount := fc; ShouldRetryAgain := fc <=? 2 |} in
  receiveFrom {| Request := [pageRequest hash p]; Response := OtherRes |} b =
  (if fc <=? 2 then retried b1 hash p else b1, Some ErrUnexpectedType).
Proof.
  intros Hq Heq Hp HR Hfc fc b1.
  unfold receiveWitnessPage. cbn [Response Request]. f_equal.
  unfold recordFailure. cbn [fold_left req_Hash req_Page pageRequest].
  assert (Hw : wrap64 (FailCount (lookupRetry b hash p) + 1) = fc).
  { apply wrap64_small. unfold max_int64. lia. }
  rewrite Hw, (Hq hash p).
  assert (Hb1 : storeRetry b hash p
                  {| FailCount := fc;
                     ShouldRetryAgain :=
                       if fc <=? DefaultMaxPagesRequestRetries then true else false |} = b1).
  { subst b1. unfold DefaultMaxPagesRequestRetries. destruct (fc <=? 2); reflexivity. }
  rewrite Hb1.
  assert (Hlook : forall h' p', lookupRetry b1 h' p' =
            if decide ((hash, p) = (h', p'))
            then {| FailCount := fc; ShouldRetryAgain := fc <=? 2 |}
            else lookupRetry b h' p').
  { intros. subst b1. apply lookupRetry_storeRetry. }
  assert (HR1 : requested hash b1 = requested hash b) by reflexivity.
  assert (HT1 : target hash b1 = target hash b) by reflexivity.
  destruct (fc <=? 2) eqn:Hle.
  - apply (spawnBuild_retry RequestWitness_ok peer_accepts hash b1 p).
    + congruence.
    + rewrite HR1. lia.
    + subst b1. apply recorded_storeRetry. now left.
    + rewrite Hlook, decide_True by reflexivity. reflexivity.
    + intros h' p' Hne. rewrite Hlook, decide_False by congruence. apply Hq.
    + rewrite HR1. lia.
  - rewrite (spawnBuild_quiet RequestWitness_ok peer_accepts hash b1).
    + unfold withNewPages. rewrite HR1, HT1, Heq, Z.sub_diag. cbn.
      rewrite app_nil_r. subst b1. destruct b; reflexivity.
    + intros h' p'. rewrite Hlook. destruct (decide _); [reflexivity | apply Hq].
    + rewrite HR1. lia.
    + rewrite HT1, <- Heq. lia.
Qed.

(** The batch after a page with a payload has been recorded: the received
    pages and the reconstructed witnesses as given, the page total of the
    hash set. *)
Definition recordedPage (b : @Batch Header) (received : list WitnessPageResponse)
    (rec : gmap Hash (@Witness Header)) : @Batch Header :=
  {| witReqs := witReqs b;
     witTotalPages := <[hash := len chunks]> (witTotalPages b);
     witTotalRequest := witTotalRequest b;
     failedRequests := failedRequests b;
     receivedWitPages := <[hash := received]> (receivedWitPages b);
     reconstructedWitness := rec |}.

(** A page of the split arrives. *)
Lemma receive_page (b : @Batch Header) pg :
  quiet b -> 0 <= requested hash b <= len chunks ->
  pg ∈ pagesOf hash chunks ->
  NoDup (receivedPages b ++ [pg]) ->
  (forall x, x ∈ receivedPages b -> x ∈ pagesOf hash chunks) ->
  receiveFrom {| Request := [pageRequest hash (Page pg)];
                 Response := WitnessPacketRLPPacket [pg] |} b =
  (withNewPages hash
     (if decide (length (receivedPages b ++ [pg]) = length chunks)
      then recordedPage b (pagesOf hash chunks) (<[hash := decoded]> (reconstructedWitness b))
      else recordedPage b (receivedPages b ++ [pg]) (reconstructedWitness b)), None).
Proof.
  intros Hq HR Hpg Hnd Hsub.
  destruct (elem_of_pagesOf hash chunks chunks_nonempty pg Hpg) as (Hh & Ht & Hd & Hp & _).
  unfold receiveWitnessPage. cbn [Response Request forEach].
  unfold receivePage. cbv beta zeta.
  cbn [witReqs witTotalPages witTotalRequest failedRequests receivedWitPages
       reconstructedWitness].
  assert (Hlen : (len (Data pg) =? 0) = false).
  { apply Z.eqb_neq. unfold len. destruct (Data pg); [contradiction|]. cbn [length]. lia. }
  rewrite Hlen, Hh, Ht, wrap64_len_chunks. fold (receivedPages b).
  assert (Hmax : len chunks < 2 ^ 64).
  { pose proof chunks_int. unfold max_int64 in *. lia. }
  assert (Hbuild : forall received rec,
            spawnBuild RequestWitness_ok [hash] (recordedPage b received rec)
            = withNewPages hash (recordedPage b received rec)).
  { intros received rec. apply (spawnBuild_quiet RequestWitness_ok peer_accepts).
    - exact Hq.
    - unfold requested in *. cbn [recordedPage witTotalRequest]. lia.
    - unfold target. cbn [recordedPage witTotalPages]. rewrite lookup_insert_eq.
      destruct (len chunks =? 0); [unfold DefaultPagesRequestPerWitness|]; lia. }
  destruct (decide (length (receivedPages b ++ [pg]) = length chunks)) as [Hall|Hnot].
  - assert (Hcount : (len (receivedPages b ++ [pg]) =? len chunks) = true).
    { apply Z.eqb_eq. unfold len. now rewrite Hall. }
    rewrite Hcount.
    rewrite reconstruct_all_pages; [| exact Hnd | | exact Hall].
    + unfold recordedPage in Hbuild. rewrite Hbuild. reflexivity.
    + intros x Hx. apply elem_of_app in Hx as [Hx | Hx]; [now apply Hsub|].
      apply list_elem_of_singleton in Hx. now subst.
  - assert (Hcount : (len (receivedPages b ++ [pg]) =? len chunks) = false).
    { apply Z.eqb_neq. unfold len. lia. }
    rewrite Hcount.
    unfold recordedPage in Hbuild. rewrite Hbuild. reflexivity.
Qed.

Abbreviation deliverTo := (deliver rlp_decode sort_Slice RequestWitness_ok [hash]).

(** How often the request for page [p] has failed. *)
Definition failures (b : @Batch Header) (p : Z) : Z := FailCount (lookupRetry b hash p).

(** What holds of a batch between two answers of the peer. *)
Record invariant (s : @Sys Header) : Prop := {
  inv_quiet : quiet (batch s);
  inv_requested : 1 <= requested hash (batch s) <= len chunks;
  inv_total :
    (witTotalPages (batch s) !! hash = None /\ receivedPages (batch s) = []
     /\ requested hash (batch s) = 1)
    \/ (witTotalPages (batch s) !! hash = Some (len chunks)
        /\ receivedPages (batch s) <> []
        /\ requested hash (batch s) = len chunks);
  inv_inflight_nodup : NoDup (inflight s);
  inv_inflight : forall r, r ∈ inflight s ->
    req_Hash r = hash /\ 0 <= req_Page r < requested hash (batch s)
    /\ failures (batch s) (req_Page r) <= 2
    /\ forall pg, pg ∈ receivedPages (batch s) -> Page pg <> req_Page r;
  inv_received_nodup : NoDup (receivedPages (batch s));
  inv_received : forall pg, pg ∈ receivedPages (batch s) ->
    pg ∈ pagesOf hash chunks /\ failures (batch s) (Page pg) <= 2;
  inv_cover : forall p, 0 <= p < requested hash (batch s) ->
    pageRequest hash p ∈ inflight s
    \/ (exists pg, pg ∈ receivedPages (batch s) /\ Page pg = p)
    \/ failures (batch s) p = 3;
  inv_failures : forall p,
    0 <= failures (batch s) p <= 3
    /\ (failures (batch s) p <> 0 -> 0 <= p < requested hash (batch s));
  inv_witness :
    reconstructedWitness (batch s) !! hash =
    if decide (length (receivedPages (batch s)) = length chunks)
    then Some decoded else None
}.

Lemma invariant_target s : invariant s -> target hash (batch s) = requested hash (batch s).
Proof.
  intros I. pose proof len_chunks_pos as Hpos. unfold target.
  destruct (inv_total s I) as [(-> & _ & ->) | (-> & _ & ->)]; [reflexivity|].
  rewrite (proj2 (Z.eqb_neq _ _)) by lia. reflexivity.
Qed.

Lemma startSys_one_hash :
  @startSys Header RequestWitness_ok [hash] =
  {| batch := withRequests emptyBatch [pageRequest hash 0] {[hash := 1]};
     inflight := [pageRequest hash 0] |}.
Proof.
  assert (HR0 : requested hash (@emptyBatch Header) = 0).
  { unfold requested. cbn [emptyBatch witTotalRequest]. now rewrite lookup_empty. }
  assert (HT0 : target hash (@emptyBatch Header) = 1).
  { unfold target. cbn [emptyBatch witTotalPages]. now rewrite lookup_empty. }
  unfold startSys, startBatch.
  rewrite (spawnBuild_quiet RequestWitness_ok peer_accepts hash emptyBatch);
    [| intros h p; unfold lookupRetry; cbn [emptyBatch failedRequests];
       rewrite lookup_empty; cbn; rewrite lookup_empty; reflexivity
     | rewrite HR0; lia | rewrite HT0; lia].
  unfold withNewPages. rewrite HR0, HT0. reflexivity.
Qed.

Lemma start_lookupRetry h p :
  lookupRetry (withRequests (@emptyBatch Header) [pageRequest hash 0] {[hash := 1]}) h p
  = zeroRetryCount.
Proof.
  unfold lookupRetry. cbn [withRequests emptyBatch failedRequests].
  rewrite lookup_empty. cbn. now rewrite lookup_empty.
Qed.

Lemma start_requested :
  requested hash (withRequests (@emptyBatch Header) [pageRequest hash 0] {[hash := 1]}) = 1.
Proof.
  unfold requested. cbn [withRequests witTotalRequest].
  rewrite lookup_singleton_eq. reflexivity.
Qed.

Lemma invariant_start : invariant (@startSys Header RequestWitness_ok [hash]).
Proof.
  rewrite startSys_one_hash. pose proof len_chunks_pos as Hpos.
  pose proof start_requested as HR. pose proof start_lookupRetry as HF.
  assert (HL : receivedPages (withRequests (@emptyBatch Header)
                                [pageRequest hash 0] {[hash := 1]}) = []).
  { unfold receivedPages. cbn [withRequests emptyBatch receivedWitPages].
    now rewrite lookup_empty. }
  split; cbn [batch inflight]; unfold failures; rewrite ?HR, ?HL; try setoid_rewrite HF.
  - intros h p. now rewrite HF.
  - lia.
  - left. repeat split.
  - apply NoDup_singleton.
  - intros r Hr. apply list_elem_of_singleton in Hr as ->. cbn.
    repeat split; try lia. intros pg Hpg. inversion Hpg.
  - constructor.
  - intros pg Hpg. inversion Hpg.
  - intros p Hp. left. replace p with 0 by lia. apply list_elem_of_singleton. reflexivity.
  - intros p. cbn. split; [lia|]. intros Hne. contradiction Hne. reflexivity.
  - cbn [withRequests emptyBatch reconstructedWitness]. rewrite lookup_empty.
    rewrite decide_False; [reflexivity|].
    destruct chunks; [contradiction | discriminate].
Qed.

Lemma lookupRetry_ext (b1 b2 : @Batch Header) h p :
  failedRequests b1 = failedRequests b2 -> lookupRetry b1 h p = lookupRetry b2 h p.
Proof. unfold lookupRetry. now intros ->. Qed.

Lemma inflight_request s r :
  invariant s -> r ∈ inflight s -> r = pageRequest hash (req_Page r).
Proof.
  intros I Hr. destruct (inv_inflight s I r Hr) as (Hh & _).
  destruct r as [h p]. cbn in *. now subst.
Qed.

(** The batch after a failed answer. *)
Lemma deliver_failure s i p :
  invariant s -> inflight s !! i = Some (pageRequest hash p) ->
  let fc := failures (batch s) p + 1 in
  let s' := deliverTo i OtherRes s in
  witTotalPages (batch s') = witTotalPages (batch s)
  /\ witTotalRequest (batch s') = witTotalRequest (batch s)
  /\ receivedWitPages (batch s') = receivedWitPages (batch s)
  /\ reconstructedWitness (batch s') = reconstructedWitness (batch s)
  /\ (forall h' p', lookupRetry (batch s') h' p' =
        if decide ((hash, p) = (h', p'))
        then {| FailCount := fc; ShouldRetryAgain := false |}
        else lookupRetry (batch s) h' p')
  /\ inflight s' = delete i (inflight s)
                   ++ (if fc <=? 2 then [pageRequest hash p] else []).
Proof.
  intros I Hl fc s'.
  assert (Hin : pageRequest hash p ∈ inflight s) by (eapply list_elem_of_lookup_2, Hl).
  destruct (inv_inflight s I _ Hin) as (_ & Hp & Hfc & _). cbn [req_Page pageRequest] in *.
  destruct (inv_failures s I p) as [Hf _].
  pose proof (inv_requested s I) as HR. pose proof chunks_int as Hint.
  subst s'. unfold deliver. rewrite Hl. cbv zeta.
  rewrite receive_failure;
    [| apply (inv_quiet s I) | symmetry; now apply invariant_target | exact Hp
     | unfold max_int64 in Hint; lia | exact Hf].
  cbn [fst batch inflight]. fold (failures (batch s) p). fold fc.
  destruct (fc <=? 2) eqn:Hle.
  - unfold retried, withRequests. cbn [storeRetry witReqs witTotalPages witTotalRequest
      receivedWitPages reconstructedWitness].
    repeat split.
    + intros h' p'. rewrite lookupRetry_storeRetry.
      destruct (decide ((hash, p) = (h', p'))) as [Heq|Hne].
      * f_equal. rewrite lookupRetry_storeRetry, decide_True by reflexivity. reflexivity.
      * rewrite (lookupRetry_ext _ (storeRetry (batch s) hash p
                   {| FailCount := fc; ShouldRetryAgain := true |})) by reflexivity.
        rewrite lookupRetry_storeRetry, decide_False by exact Hne. reflexivity.
    + now rewrite drop_app_length.
  - cbn [storeRetry witReqs witTotalPages witTotalRequest receivedWitPages
         reconstructedWitness].
    repeat split.
    + intros h' p'. rewrite lookupRetry_storeRetry. reflexivity.
    + now rewrite drop_all.
Qed.

Lemma delete_inflight (l : list WitnessPageRequest) i r :
  NoDup l -> l !! i = Some r ->
  NoDup (delete i l) /\ (r ∉ delete i l)
  /\ (forall x, x ∈ delete i l -> x ∈ l)
  /\ (forall x, x ∈ l -> x = r \/ x ∈ delete i l).
Proof.
  intros Hnd Hl. pose proof (delete_Permutation l i r Hl) as Hp.
  rewrite Hp in Hnd. apply NoDup_cons in Hnd as [Hr Hnd].
  repeat split; auto.
  - intros x Hx. rewrite Hp. now right.
  - intros x Hx. rewrite Hp in Hx. apply elem_of_cons in Hx. exact Hx.
Qed.

Lemma invariant_failure s i r :
  invariant s -> inflight s !! i = Some r -> invariant (deliverTo i OtherRes s).
Proof.
  intros I Hl.
  assert (Hin : r ∈ inflight s) by (eapply list_elem_of_lookup_2, Hl).
  pose proof (inflight_request s r I Hin) as Hr.
  set (p := req_Page r) in *. rewrite Hr in Hl, Hin.
  destruct (deliver_failure s i p I Hl) as (E1 & E2 & E3 & E4 & E5 & E6).
  cbv zeta in *.
  destruct (delete_inflight _ _ _ (inv_inflight_nodup s I) Hl) as (Dnd & Dr & Dsub & Dcase).
  destruct (inv_inflight s I _ Hin) as (_ & Hp & Hfc & Hnew).
  cbn [req_Page pageRequest] in Hp, Hfc, Hnew.
  destruct (inv_failures s I p) as [Hf0 _].
  set (s' := deliverTo i OtherRes s) in *.
  set (fc := failures (batch s) p + 1) in *.
  assert (HR : requested hash (batch s') = requested hash (batch s))
    by (unfold requested; now rewrite E2).
  assert (HL : receivedPages (batch s') = receivedPages (batch s))
    by (unfold receivedPages; now rewrite E3).
  assert (HF : forall p', failures (batch s') p' =
                          if decide (p = p') then fc else failures (batch s) p').
  { intros p'. unfold failures. rewrite E5.
    destruct (decide (p = p')) as [<-|Hne].
    - now rewrite decide_True.
    - rewrite decide_False by congruence. reflexivity. }
  split; rewrite ?HR, ?HL, ?E1, ?E4.
  - intros h' p'. rewrite E5. destruct (decide _); [reflexivity | apply (inv_quiet s I)].
  - apply (inv_requested s I).
  - apply (inv_total s I).
  - rewrite E6. apply NoDup_app. split; [exact Dnd|]. split.
    + intros x Hx. destruct (fc <=? 2); [|apply not_elem_of_nil].
      intros Hx'. apply list_elem_of_singleton in Hx' as ->. contradiction.
    + destruct (fc <=? 2); [apply NoDup_singleton | constructor].
  - intros x Hx. rewrite E6 in Hx. apply elem_of_app in Hx as [Hx | Hx].
    + pose proof (Dsub x Hx) as Hxin.
      destruct (inv_inflight s I x Hxin) as (Hh & Hxp & Hxf & Hxn).
      split; [exact Hh|]. split; [exact Hxp|]. split; [|exact Hxn].
      rewrite HF. destruct (decide (p = req_Page x)) as [Heq|]; [|exact Hxf].
      exfalso. apply Dr. rewrite (inflight_request s x I Hxin) in Hx.
      now rewrite <- Heq in Hx.
    + destruct (fc <=? 2) eqn:Hle; [|inversion Hx].
      apply list_elem_of_singleton in Hx as ->. cbn [req_Hash req_Page pageRequest].
      split; [reflexivity|]. split; [exact Hp|]. split; [|exact Hnew].
      rewrite HF, decide_True by reflexivity. now apply Z.leb_le.
  - apply (inv_received_nodup s I).
  - intros pg Hpg. destruct (inv_received s I pg Hpg) as [HP Hpf]. split; [exact HP|].
    rewrite HF, decide_False; [exact Hpf|]. intros Heq. now apply (Hnew pg Hpg).
  - intros p' Hp'. rewrite HF. destruct (decide (p = p')) as [<-|Hne].
    + destruct (fc <=? 2) eqn:Hle.
      * left. rewrite E6, ?Hle. apply elem_of_app. right. now apply list_elem_of_singleton.
      * right; right. apply Z.leb_gt in Hle. subst fc. lia.
    + destruct (inv_cover s I p' Hp') as [Hfl | [Hrec | Hab]]; auto.
      left. rewrite E6. apply elem_of_app. left.
      destruct (Dcase _ Hfl) as [Heq | Hd]; [|exact Hd].
      injection Heq as Heq. congruence.
  - intros p'. rewrite HF. destruct (decide (p = p')) as [<-|Hne].
    + split; [subst fc; lia | intros _; exact Hp].
    + apply (inv_failures s I).
  - apply (inv_witness s I).
Qed.

Lemma received_with_page s pg :
  invariant s -> pageRequest hash (Page pg) ∈ inflight s -> pg ∈ pagesOf hash chunks ->
  NoDup (receivedPages (batch s) ++ [pg])
  /\ (forall x, x ∈ receivedPages (batch s) ++ [pg] -> x ∈ pagesOf hash chunks)
  /\ (length (receivedPages (batch s) ++ [pg]) <= length chunks)%nat.
Proof.
  intros I Hin Hpg.
  destruct (inv_inflight s I _ Hin) as (_ & _ & _ & Hnew). cbn [req_Page pageRequest] in Hnew.
  assert (Hnd : NoDup (receivedPages (batch s) ++ [pg])).
  { apply NoDup_app. split; [apply (inv_received_nodup s I)|]. split; [|apply NoDup_singleton].
    intros x Hx Hx'. apply list_elem_of_singleton in Hx' as ->. now apply (Hnew pg Hx). }
  assert (Hsub : forall x, x ∈ receivedPages (batch s) ++ [pg] -> x ∈ pagesOf hash chunks).
  { intros x Hx. apply elem_of_app in Hx as [Hx | Hx].
    - now apply (inv_received s I).
    - apply list_elem_of_singleton in Hx. now subst. }
  split; [exact Hnd|]. split; [exact Hsub|].
  rewrite <- (splitPages_length hash (len chunks) 0 chunks).
  apply submseteq_length, NoDup_submseteq; assumption.
Qed.

(** The batch after a page of the split has arrived. *)
Lemma deliver_page s i pg :
  invariant s -> inflight s !! i = Some (pageRequest hash (Page pg)) ->
  pg ∈ pagesOf hash chunks ->
  let s' := deliverTo i (WitnessPacketRLPPacket [pg]) s in
  let received := receivedPages (batch s) ++ [pg] in
  failedRequests (batch s') = failedRequests (batch s)
  /\ witTotalPages (batch s') !! hash = Some (len chunks)
  /\ requested hash (batch s') = len chunks
  /\ Permutation (receivedPages (batch s')) received
  /\ reconstructedWitness (batch s') !! hash =
     (if decide (length received = length chunks) then Some decoded
      else reconstructedWitness (batch s) !! hash)
  /\ inflight s' =
     delete i (inflight s)
     ++ map (pageRequest hash)
            (page_range (requested hash (batch s))
                        (Z.to_nat (len chunks - requested hash (batch s)))).
Proof.
  intros I Hl Hpg s' received.
  assert (Hin : pageRequest hash (Page pg) ∈ inflight s)
    by (eapply list_elem_of_lookup_2, Hl).
  destruct (received_with_page s pg I Hin Hpg) as (Hnd & Hsub & Hlen).
  pose proof (inv_requested s I) as HR. pose proof len_chunks_pos as Hpos.
  subst s'. unfold deliver. rewrite Hl. cbv zeta.
  rewrite receive_page; [| apply (inv_quiet s I) | lia | exact Hpg | exact Hnd |].
  2:{ intros x Hx. apply Hsub, elem_of_app. now left. }
  cbn [fst batch inflight]. fold received.
  assert (Hview : forall l rec,
    let b2 := recordedPage (batch s) l rec in
    failedRequests (withNewPages hash b2) = failedRequests (batch s)
    /\ witTotalPages (withNewPages hash b2) !! hash = Some (len chunks)
    /\ requested hash (withNewPages hash b2) = len chunks
    /\ receivedPages (withNewPages hash b2) = l
    /\ reconstructedWitness (withNewPages hash b2) = rec
    /\ drop (length (witReqs (batch s))) (witReqs (withNewPages hash b2)) =
       map (pageRequest hash)
           (page_range (requested hash (batch s))
                       (Z.to_nat (len chunks - requested hash (batch s))))).
  { intros l rec b2.
    assert (HR2 : requested hash b2 = requested hash (batch s)) by reflexivity.
    assert (HT2 : target hash b2 = len chunks).
    { unfold target. subst b2. cbn [recordedPage witTotalPages].
      rewrite lookup_insert_eq. rewrite (proj2 (Z.eqb_neq _ _)) by lia. reflexivity. }
    unfold withNewPages. rewrite HR2, HT2.
    cbn [withRequests failedRequests witTotalPages witTotalRequest receivedWitPages
         reconstructedWitness witReqs]. subst b2. cbn [recordedPage failedRequests
         witTotalPages witTotalRequest receivedWitPages reconstructedWitness witReqs].
    repeat split.
    - apply lookup_insert_eq.
    - destruct (Z.to_nat (len chunks - requested hash (batch s))) eqn:Hn.
      + change (requested hash (batch s) = len chunks). lia.
      + unfold requested at 1, withRequests. cbn [witTotalRequest].
        rewrite lookup_insert_eq. cbn [from_option id]. lia.
    - unfold receivedPages, withRequests, recordedPage. cbn [receivedWitPages].
      now rewrite lookup_insert_eq.
    - unfold withRequests, recordedPage. cbn [witReqs]. now rewrite drop_app_length. }
  destruct (decide (length received = length chunks)) as [Hall|Hnot].
  - destruct (Hview (pagesOf hash chunks) (<[hash := decoded]> (reconstructedWitness (batch s))))
      as (V1 & V2 & V3 & V4 & V5 & V6).
    rewrite V1, V2, V3, V4, V5, V6, lookup_insert_eq. repeat split.
    symmetry. apply submseteq_length_Permutation; [now apply NoDup_submseteq|].
    unfold pagesOf. rewrite splitPages_length. subst received. lia.
  - destruct (Hview received (reconstructedWitness (batch s)))
      as (V1 & V2 & V3 & V4 & V5 & V6).
    rewrite V1, V2, V3, V4, V5, V6. repeat split; reflexivity.
Qed.

Lemma elem_of_new_pages (first : Z) (n : nat) x :
  x ∈ map (pageRequest hash) (page_range first n) <->
  exists q, x = pageRequest hash q /\ first <= q < first + Z.of_nat n.
Proof.
  rewrite list_elem_of_In, in_map_iff. split.
  - intros (q & <- & Hq). exists q. split; [reflexivity|]. now apply in_page_range.
  - intros (q & -> & Hq). exists q. split; [reflexivity|]. now apply in_page_range.
Qed.

Lemma NoDup_new_pages (first : Z) (n : nat) :
  NoDup (map (pageRequest hash) (page_range first n)).
Proof.
  apply NoDup_ListNoDup, Finite.Injective_map_NoDup; [|apply NoDup_page_range].
  intros p q [= ->]. reflexivity.
Qed.

Lemma invariant_page s i pg :
  invariant s -> inflight s !! i = Some (pageRequest hash (Page pg)) ->
  pg ∈ pagesOf hash chunks ->
  invariant (deliverTo i (WitnessPacketRLPPacket [pg]) s).
Proof.
  intros I Hl Hpg.
  assert (Hin : pageRequest hash (Page pg) ∈ inflight s)
    by (eapply list_elem_of_lookup_2, Hl).
  destruct (deliver_page s i pg I Hl Hpg) as (F1 & F2 & F3 & F4 & F5 & F6).
  cbv zeta in *.
  destruct (received_with_page s pg I Hin Hpg) as (Hnd & Hsub & Hlen).
  destruct (delete_inflight _ _ _ (inv_inflight_nodup s I) Hl) as (Dnd & Dr & Dsub & Dcase).
  destruct (inv_inflight s I _ Hin) as (_ & Hp & Hfc & Hnew).
  cbn [req_Page pageRequest] in Hp, Hfc, Hnew.
  pose proof (inv_requested s I) as HR. pose proof len_chunks_pos as Hpos.
  set (s' := deliverTo i (WitnessPacketRLPPacket [pg]) s) in *.
  set (R := requested hash (batch s)) in *.
  set (n := Z.to_nat (len chunks - R)) in *.
  assert (Hn : R + Z.of_nat n = len chunks) by (subst n; lia).
  assert (HF : forall p', failures (batch s') p' = failures (batch s) p').
  { intros p'. unfold failures. f_equal. now apply lookupRetry_ext. }
  assert (Hfresh : forall q, R <= q < len chunks -> receivedPages (batch s) = []).
  { intros q Hq. destruct (inv_total s I) as [(_ & HL & _) | (_ & _ & HRN)]; [exact HL|].
    fold R in HRN. lia. }
  assert (Hmem : forall x, x ∈ receivedPages (batch s') <->
                           x ∈ receivedPages (batch s) \/ x = pg).
  { intros x. rewrite F4, elem_of_app, list_elem_of_singleton. reflexivity. }
  split; rewrite ?F3.
  - intros h' p'. rewrite (lookupRetry_ext _ (batch s)) by exact F1. apply (inv_quiet s I).
  - lia.
  - right. split; [exact F2|]. split; [|reflexivity].
    intros Hnil. apply (f_equal length) in Hnil. rewrite F4, length_app in Hnil.
    cbn in Hnil. lia.
  - rewrite F6. apply NoDup_app. split; [exact Dnd|]. split; [|apply NoDup_new_pages].
    intros x Hx Hx'. apply elem_of_new_pages in Hx' as (q & -> & Hq).
    destruct (inv_inflight s I _ (Dsub _ Hx)) as (_ & Hxp & _).
    cbn [req_Page pageRequest] in Hxp. fold R in Hxp. lia.
  - intros x Hx. rewrite F6 in Hx. apply elem_of_app in Hx as [Hx | Hx].
    + pose proof (Dsub x Hx) as Hxin.
      destruct (inv_inflight s I x Hxin) as (Hh & Hxp & Hxf & Hxn). fold R in Hxp.
      split; [exact Hh|]. split; [lia|]. split; [now rewrite HF|].
      intros pg' Hpg'. apply Hmem in Hpg' as [Hpg' | ->]; [now apply Hxn|].
      intros Heq. apply Dr. rewrite (inflight_request s x I Hxin) in Hx.
      now rewrite <- Heq in Hx.
    + apply elem_of_new_pages in Hx as (q & -> & Hq). cbn [req_Hash req_Page pageRequest].
      split; [reflexivity|]. split; [lia|]. split.
      * rewrite HF. destruct (inv_failures s I q) as [Hq0 Hq1].
        destruct (decide (failures (batch s) q = 0)) as [->|Hne]; [lia|].
        apply Hq1 in Hne. fold R in Hne. lia.
      * intros pg' Hpg'. apply Hmem in Hpg' as [Hpg' | ->]; [|lia].
        rewrite (Hfresh q) in Hpg' by lia. inversion Hpg'.
  - rewrite F4. exact Hnd.
  - intros pg' Hpg'. rewrite HF. apply Hmem in Hpg' as [Hpg' | ->].
    + apply (inv_received s I pg' Hpg').
    + split; [exact Hpg | exact Hfc].
  - intros p' Hp'. rewrite HF. destruct (decide (p' < R)) as [Hlt|Hge].
    + destruct (inv_cover s I p') as [Hfl | [(pg' & Hpg' & Hpage) | Hab]]; [fold R; lia | | |].
      * destruct (Dcase _ Hfl) as [Heq | Hd].
        -- right; left. exists pg. split; [apply Hmem; now right|].
           injection Heq as Heq. now symmetry.
        -- left. rewrite F6. apply elem_of_app. now left.
      * right; left. exists pg'. split; [apply Hmem; now left | exact Hpage].
      * right; right. exact Hab.
    + left. rewrite F6. apply elem_of_app. right. apply elem_of_new_pages.
      exists p'. split; [reflexivity | lia].
  - intros p'. rewrite HF. destruct (inv_failures s I p') as [Hb Hr]. split; [exact Hb|].
    intros Hne. apply Hr in Hne. fold R in Hne. lia.
  - rewrite F5. rewrite (Permutation_length F4).
    destruct (decide (length (receivedPages (batch s) ++ [pg]) = length chunks)) as [|Hnot];
      [reflexivity|].
    rewrite (inv_witness s I). rewrite decide_False; [reflexivity|].
    rewrite length_app in Hlen. cbn [length] in Hlen. lia.
Qed.

(** How often the request for page [p] has been handed to the peer. *)
Definition requestCount (b : @Batch Header) (p : Z) : nat :=
  count_occ WitnessPageRequest_eq_dec (witReqs b) (pageRequest hash p).

Lemma new_pages_count (first : Z) (n : nat) q :
  count_occ WitnessPageRequest_eq_dec
            (map (pageRequest hash) (page_range first n)) (pageRequest hash q)
  = if decide (first <= q < first + Z.of_nat n) then 1%nat else 0%nat.
Proof.
  revert first. induction n as [|n IH]; intros first.
  - cbn. rewrite decide_False by lia. reflexivity.
  - cbn [page_range map]. destruct (decide (first = q)) as [->|Hne].
    + rewrite count_occ_cons_eq by reflexivity. rewrite IH.
      rewrite decide_False by lia. rewrite decide_True by lia. reflexivity.
    + rewrite count_occ_cons_neq by (intros [= ?]; contradiction). rewrite IH.
      destruct (decide (first + 1 <= q < first + 1 + Z.of_nat n)).
      * rewrite decide_True by lia. reflexivity.
      * rewrite decide_False by lia. reflexivity.
Qed.

Lemma deliver_failure_requests s i p :
  invariant s -> inflight s !! i = Some (pageRequest hash p) ->
  witReqs (batch (deliverTo i OtherRes s)) =
  witReqs (batch s)
  ++ (if failures (batch s) p + 1 <=? 2 then [pageRequest hash p] else []).
Proof.
  intros I Hl.
  assert (Hin : pageRequest hash p ∈ inflight s) by (eapply list_elem_of_lookup_2, Hl).
  destruct (inv_inflight s I _ Hin) as (_ & Hp & Hfc & _). cbn [req_Page pageRequest] in *.
  destruct (inv_failures s I p) as [Hf _].
  pose proof (inv_requested s I) as HR. pose proof chunks_int as Hint.
  unfold deliver. rewrite Hl. cbv zeta.
  rewrite receive_failure;
    [| apply (inv_quiet s I) | symmetry; now apply invariant_target | exact Hp
     | unfold max_int64 in Hint; lia | exact Hf].
  cbn [fst batch]. fold (failures (batch s) p).
  destruct (failures (batch s) p + 1 <=? 2); [reflexivity|].
  cbn [storeRetry witReqs]. now rewrite app_nil_r.
Qed.

Lemma deliver_page_requests s i pg :
  invariant s -> inflight s !! i = Some (pageRequest hash (Page pg)) ->
  pg ∈ pagesOf hash chunks ->
  witReqs (batch (deliverTo i (WitnessPacketRLPPacket [pg]) s)) =
  witReqs (batch s)
  ++ map (pageRequest hash)
         (page_range (requested hash (batch s))
                     (Z.to_nat (len chunks - requested hash (batch s)))).
Proof.
  intros I Hl Hpg.
  assert (Hin : pageRequest hash (Page pg) ∈ inflight s)
    by (eapply list_elem_of_lookup_2, Hl).
  destruct (received_with_page s pg I Hin Hpg) as (Hnd & Hsub & Hlen).
  pose proof (inv_requested s I) as HR. pose proof len_chunks_pos as Hpos.
  unfold deliver. rewrite Hl. cbv zeta.
  rewrite receive_page; [| apply (inv_quiet s I) | lia | exact Hpg | exact Hnd |].
  2:{ intros x Hx. apply Hsub, elem_of_app. now left. }
  cbn [fst batch].
  assert (HT : forall l rec, target hash (recordedPage (batch s) l rec) = len chunks).
  { intros l rec. unfold target. cbn [recordedPage witTotalPages].
    rewrite lookup_insert_eq. rewrite (proj2 (Z.eqb_neq _ _)) by lia. reflexivity. }
  destruct (decide _); unfold withNewPages; rewrite HT; reflexivity.
Qed.

(** Every page requested so far has gone to the peer once, and once more for
    each of its first two failures. *)
Definition requestsCounted (s : @Sys Header) : Prop :=
  forall p, Z.of_nat (requestCount (batch s) p) =
            if decide (0 <= p < requested hash (batch s))
            then 1 + Z.min (failures (batch s) p) 2 else 0.

Abbreviation reachableFrom :=
  (reachableSys rlp_decode sort_Slice RequestWitness_ok hash chunks).

Lemma reachable_invariant s : reachableFrom s -> invariant s /\ requestsCounted s.
Proof.
  induction 1 as [|s i r res _ [I C] Hl Hans].
  - split; [apply invariant_start|].
    intros p. rewrite startSys_one_hash. cbn [batch].
    unfold requestCount, failures. rewrite start_requested, start_lookupRetry.
    cbn [withRequests witReqs zeroRetryCount FailCount].
    destruct (decide (0 <= p < 1)) as [Hp|Hp].
    + replace p with 0 by lia. rewrite count_occ_cons_eq by reflexivity. reflexivity.
    + rewrite count_occ_cons_neq by (intros [= ?]; lia). reflexivity.
  - assert (Hin : r ∈ inflight s) by (eapply list_elem_of_lookup_2, Hl).
    pose proof (inv_requested s I) as HR.
    destruct Hans as [r | page pg Hpage Hpg].
    + split; [now apply (invariant_failure s i r)|].
      pose proof (inflight_request s r I Hin) as Hr. rewrite Hr in Hl, Hin.
      set (p := req_Page r) in *.
      destruct (deliver_failure s i p I Hl) as (_ & E2 & _ & _ & E5 & _).
      pose proof (deliver_failure_requests s i p I Hl) as E7.
      destruct (inv_inflight s I _ Hin) as (_ & Hp & Hfc & _).
      cbn [req_Page pageRequest] in Hp, Hfc.
      destruct (inv_failures s I p) as [Hf0 _].
      intros q. unfold requestCount, failures. rewrite E7, E5, count_occ_app.
      replace (requested hash (batch (deliverTo i OtherRes s)))
        with (requested hash (batch s)) by (unfold requested; now rewrite E2).
      specialize (C q). unfold requestCount in C. rewrite Nat2Z.inj_add, C.
      fold (failures (batch s) q). fold (failures (batch s) p).
      destruct (decide ((hash, p) = (hash, q))) as [[= <-]|Hne].
      * destruct (decide (0 <= p < requested hash (batch s))) as [_|X]; [|contradiction].
        cbn [FailCount].
        destruct (failures (batch s) p + 1 <=? 2) eqn:Hle.
        -- apply Z.leb_le in Hle. rewrite count_occ_cons_eq by reflexivity. cbn. lia.
        -- apply Z.leb_gt in Hle. cbn. lia.
      * assert (Hpq : pageRequest hash p <> pageRequest hash q)
          by (intros [= ?]; apply Hne; congruence).
        destruct (failures (batch s) p + 1 <=? 2).
        -- rewrite count_occ_cons_neq by exact Hpq. cbn. unfold failures.
           case_decide; lia.
        -- cbn. unfold failures. case_decide; lia.
    + destruct (pagesOf_lookup_page hash chunks page pg Hpage Hpg) as [Hpp HpgP].
      rewrite <- Hpp in Hl.
      split; [now apply (invariant_page s i pg)|].
      destruct (deliver_page s i pg I Hl HpgP) as (F1 & _ & F3 & _).
      pose proof (deliver_page_requests s i pg I Hl HpgP) as F7.
      pose proof len_chunks_pos as Hpos.
      intros q. unfold requestCount, failures. rewrite F7, F3, count_occ_app, new_pages_count.
      rewrite (lookupRetry_ext _ (batch s)) by exact F1.
      specialize (C q). unfold requestCount in C. rewrite Nat2Z.inj_add, C.
      fold (failures (batch s) q).
      destruct (inv_failures s I q) as [Hq0 Hq1].
      repeat case_decide; lia.
Qed.




End Retry.

(** Runs given as a list of answers: each answer must address a request in
    flight and be one the peer may give. *)
Section ServedRuns.

Context {Header : Type}.
Variable rlp_decode : list byte -> option (@extWitness Header).
Variable sort_Slice : (WitnessPageResponse -> WitnessPageResponse -> bool) ->
                      list WitnessPageResponse -> list WitnessPageResponse.
Variable RequestWitness_ok : WitnessPageRequest -> bool.
Variable hash : Hash.
Variable chunks : list (list byte).

Fixpoint served (s : @Sys Header) (l : list (nat * Res)) : Prop :=
  match l with
  | [] => True
  | (i, res) :: l =>
    (exists r, inflight s !! i = Some r /\ answers hash chunks r res)
    /\ served (deliver rlp_decode sort_Slice RequestWitness_ok [hash] i res s) l
  end.

Lemma reachableSys_served s l :
  reachableSys rlp_decode sort_Slice RequestWitness_ok hash chunks s ->
  served s l ->
  reachableSys rlp_decode sort_Slice RequestWitness_ok hash chunks
    (fold_left (fun s '(i, res) =>
                  deliver rlp_decode sort_Slice RequestWitness_ok [hash] i res s) l s).
Proof.
  revert s. induction l as [|[i res] l IH]; intros s Hs Hl; [exact Hs|].
  destruct Hl as [(r & Hr & Ha) Hl]. cbn [fold_left]. apply IH; [|exact Hl].
  econstructor; eassumption.
Qed.

Lemma reachableSys_runBatch l :
  served (startSys RequestWitness_ok [hash]) l ->
  reachableSys rlp_decode sort_Slice RequestWitness_ok hash chunks
    (runBatch rlp_decode sort_Slice RequestWitness_ok [hash] l).
Proof. apply reachableSys_served. constructor. Qed.

End ServedRuns.

(** Page 0 arrives, page 1 fails twice, then pages 2 and 1 arrive. *)
Definition twiceFailed : list (nat * Res) :=
  [(0%nat, packet page0); (0%nat, OtherRes); (1%nat, OtherRes);
   (0%nat, packet page2); (0%nat, packet page1)].

Lemma twiceFailed_served :
  served Ref.rlp_decode Ref.sort_Slice accepting hashH chunksA
         (startSys accepting [hashH]) twiceFailed.
Proof.
  unfold twiceFailed. cbv beta iota zeta delta [served].
  split; [exists (pageRequest hashH 0); split; [vm_compute; reflexivity|]|].
  { apply (answers_page hashH chunksA 0 page0); [lia | vm_compute; reflexivity]. }
  split; [exists (pageRequest hashH 1); split; [vm_compute; reflexivity|]|].
  { apply answers_failure. }
  split; [exists (pageRequest hashH 1); split; [vm_compute; reflexivity|]|].
  { apply answers_failure. }
  split; [exists (pageRequest hashH 2); split; [vm_compute; reflexivity|]|].
  { apply (answers_page hashH chunksA 2 page2); [lia | vm_compute; reflexivity]. }
  split; [exists (pageRequest hashH 1); split; [vm_compute; reflexivity|]|].
  { apply (answers_page hashH chunksA 1 page1); [lia | vm_compute; reflexivity]. }
  exact I.
Defined.


(** * Further properties of the codec *)



Lemma wrap64_shift a o : 0 < o < 2 ^ 64 -> wrap64 (a + o) <> wrap64 a.
Proof.
  intros Ho E. unfold wrap64 in E.
  assert (E' : (a + o + 2 ^ 63) mod 2 ^ 64 = (a + 2 ^ 63) mod 2 ^ 64) by lia.
  pose proof (Z.div_mod (a + o + 2 ^ 63) (2 ^ 64) ltac:(lia)) as D1.
  pose proof (Z.div_mod (a + 2 ^ 63) (2 ^ 64) ltac:(lia)) as D2.
  rewrite E' in D1.
  assert (o = 2 ^ 64 * ((a + o + 2 ^ 63) / 2 ^ 64 - (a + 2 ^ 63) / 2 ^ 64)) by lia.
  nia.
Qed.

Section CodecExtras.

Context {Header : Type}.
Variable range_order : gset (list byte) -> list (list byte).
Variable rlp_encode : @extWitness Header -> list byte.
Variable rlp_decode : list byte -> option (@extWitness Header).
Variable gzip_compress : Z -> list byte -> list byte.
Variable gunzip : list byte -> option (list byte).
Variable ratio_percent : Z -> Z -> Z.

Abbreviation EncodeC := (EncodeCompressed range_order rlp_encode gzip_compress ratio_percent).
Abbreviation rlpOf := (canonical range_order rlp_encode).

(** X1. toExtWitness followed by fromExtWitness gives the witness back,
    whatever the receiver held before: fromExtWitness overwrites all three
    fields, and the set of state nodes does not depend on the order in which
    the range over the State map visited them. *)
Theorem fromExtWitness_toExtWitness (w0 w : @Witness Header) :
  Permutation (range_order (State w)) (elements (State w)) ->
  fromExtWitness w0 (toExtWitness range_order w) = w.
Proof.
  intros Hperm. unfold fromExtWitness, toExtWitness. cbn.
  rewrite (list_to_set_range_order range_order _ Hperm). destruct w; reflexivity.
Qed.


(** X3. EncodeCompressed updates the metrics before it writes: the metrics
    after the call and the receiver do not depend on the destination, so a
    call whose Write fails is counted like one that succeeds. *)
Theorem EncodeCompressed_metrics_before_write
    {W1 W2} `{Writer W1} `{Writer W2}
    (cfg : CompressionConfig) (m : Metrics) (w : @Witness Header) (wr1 : W1) (wr2 : W2) :
  metrics_of (EncodeC cfg m w wr1) = metrics_of (EncodeC cfg m w wr2)
  /\ witness_of (EncodeC cfg m w wr1) = witness_of (EncodeC cfg m w wr2).
Proof.
  destruct (Encode_metrics range_order rlp_encode gzip_compress ratio_percent cfg m w wr1)
    as [-> ->].
  destruct (Encode_metrics range_order rlp_encode gzip_compress ratio_percent cfg m w wr2)
    as [-> ->].
  split; reflexivity.
Qed.

(** X4. With compression enabled, an RLP encoding longer than the threshold and
    a level gzip.NewWriterLevel refuses, EncodeCompressed returns that error
    and writes nothing, after it has added the size to total_original_size
    and before it touches any other metric; so from metrics in which
    space_saved == total_original - total_compressed holds, the equation no
    longer holds after the call. *)
Theorem EncodeCompressed_invalid_level
    {W} `{Writer W} (cfg : CompressionConfig) (m : Metrics) (w : @Witness Header) (wr : W) :
  Enabled cfg = true ->
  Threshold cfg < len (rlpOf cfg w) ->
  gzip_level_ok (CompressionLevel cfg) = false ->
  let m' := {| compressionCount := compressionCount m;
               uncompressedCount := uncompressedCount m;
               decompressionCount := decompressionCount m;
               compressionRatio := compressionRatio m;
               totalOriginalSize := Inc (totalOriginalSize m) (len (rlpOf cfg w));
               totalCompressedSize := totalCompressedSize m;
               spaceSavedBytes := spaceSavedBytes m |} in
  EncodeC cfg m w wr
    = (optimized cfg w, m', wr, Some (ErrGzipLevel (CompressionLevel cfg)))
  /\ (consistent m -> 0 < len (rlpOf cfg w) < 2 ^ 64 -> ~ consistent m').
Proof.
  intros Hen Hth Hlv m'. split.
  - unfold EncodeCompressed, EncodeRLP.
    change (Write [] ?p) with (([] : list byte) ++ p, @None error).
    cbn [app]. fold (optimized cfg w). fold (rlpOf cfg w).
    rewrite Hen, Hlv, (proj2 (Z.ltb_lt _ _) Hth). reflexivity.
  - unfold consistent. subst m'. cbn. unfold Inc. intros Hm Ho Hm'.
    rewrite Hm' in Hm. rewrite wrap64_sub_l in Hm.
    apply (wrap64_shift (totalOriginalSize m - totalCompressedSize m) _ Ho).
    rewrite <- Hm. f_equal. lia.
Qed.





End CodecExtras.

(** * Further properties of the build pass *)

Section BuildExtras.

Context {Header : Type}.
Variable RequestWitness_ok : WitnessPageRequest -> bool.

(** The requests a build pass has added to witReqs: the slice only grows, and
    only by requests the peer has accepted. *)
Definition appended (b b' : @Batch Header) : Prop :=
  exists sent, witReqs b' = witReqs b ++ sent
               /\ Forall (fun r => RequestWitness_ok r = true) sent.

Lemma appended_refl b : appended b b.
Proof. exists []. split; [now rewrite app_nil_r | constructor]. Qed.

Lemma appended_trans b1 b2 b3 : appended b1 b2 -> appended b2 b3 -> appended b1 b3.
Proof.
  intros (s1 & E1 & F1) (s2 & E2 & F2). exists (s1 ++ s2).
  split; [rewrite E2, E1; now rewrite app_assoc | now apply Forall_app].
Qed.

Lemma forEach_appended {A} (body : A -> @Batch Header -> @Batch Header * option error) :
  (forall x b, appended b (fst (body x b))) ->
  forall l b, appended b (fst (forEach body l b)).
Proof.
  intros Hbody l. induction l as [|x l IH]; intros b; [apply appended_refl|].
  cbn [forEach]. specialize (Hbody x b). destruct (body x b) as [b' [e|]].
  - exact Hbody.
  - eapply appended_trans; [exact Hbody | apply IH].
Qed.

Lemma doWitnessRequest_appended hash page b :
  appended b (fst (doWitnessRequest RequestWitness_ok hash page b)).
Proof.
  unfold doWitnessRequest.
  destruct (RequestWitness_ok {| req_Hash := hash; req_Page := page |}) eqn:Hok;
    cbn [negb fst]; [|apply appended_refl].
  eexists. cbn [witReqs]. split; [reflexivity|]. repeat constructor. exact Hok.
Qed.

Lemma retryFailed_appended key b :
  appended b (fst (retryFailed RequestWitness_ok key b)).
Proof.
  destruct key as [hash page]. unfold retryFailed.
  pose proof (doWitnessRequest_appended hash page b) as Hdo.
  destruct (ShouldRetryAgain (lookupRetry b hash page)); [|exact (appended_refl b)].
  destruct (doWitnessRequest RequestWitness_ok hash page b) as [b' [e|]]; exact Hdo.
Qed.

(** X8. Whatever the peer does, a buildWitnessRequests pass only appends to
    witReqs, and only requests the peer has accepted; it leaves the page
    totals, the received pages, the reconstructed witnesses and every failure
    count as they were. *)
Theorem buildWitnessRequests_only_appends (hashes : list Hash) (b : @Batch Header) :
  let b' := fst (buildWitnessRequests RequestWitness_ok hashes b) in
  (exists sent, witReqs b' = witReqs b ++ sent
                /\ Forall (fun r => RequestWitness_ok r = true) sent)
  /\ witTotalPages b' = witTotalPages b
  /\ receivedWitPages b' = receivedWitPages b
  /\ reconstructedWitness b' = reconstructedWitness b
  /\ forall h p, FailCount (lookupRetry b' h p) = FailCount (lookupRetry b h p).
Proof.
  cbv zeta. split; [|exact (spawnBuild_sameBooks RequestWitness_ok hashes b)].
  unfold buildWitnessRequests.
  pose proof (forEach_appended (requestMissing RequestWitness_ok)) as H1.
  specialize (H1 (fun x b => forEach_appended _ (doWitnessRequest_appended x) _ b) hashes b).
  destruct (forEach (requestMissing RequestWitness_ok) hashes b) as [b1 [e|]];
    [exact H1|].
  eapply appended_trans; [exact H1|].
  apply forEach_appended, retryFailed_appended.
Qed.

Hypothesis peer_accepts : forall r, RequestWitness_ok r = true.

Lemma requestMissing_accepted hash (b : @Batch Header) :
  snd (requestMissing RequestWitness_ok hash b) = None
  /\ failedRequests (fst (requestMissing RequestWitness_ok hash b)) = failedRequests b.
Proof.
  unfold requestMissing. generalize (page_range (default 0 (witTotalRequest b !! hash))
    (Z.to_nat (match witTotalPages b !! hash with
               | Some e => if e =? 0 then DefaultPagesRequestPerWitness else e
               | None => DefaultPagesRequestPerWitness
               end - default 0 (witTotalRequest b !! hash)))).
  intros l. revert b. induction l as [|p l IH]; intros b; [split; reflexivity|].
  cbn [forEach]. rewrite (doWitnessRequest_accepted RequestWitness_ok peer_accepts).
  destruct (IH (withRequests b (witReqs b ++ [pageRequest hash p])
     (if default 0 (witTotalRequest b !! hash) <=? p
      then <[hash := wrapU64 (default 0 (witTotalRequest b !! hash) + 1)]> (witTotalRequest b)
      else witTotalRequest b))) as [E1 E2].
  split; [exact E1 | rewrite E2; reflexivity].
Qed.

Lemma requestMissing_all_accepted hashes (b : @Batch Header) :
  snd (forEach (requestMissing RequestWitness_ok) hashes b) = None
  /\ failedRequests (fst (forEach (requestMissing RequestWitness_ok) hashes b))
     = failedRequests b.
Proof.
  revert b. induction hashes as [|h hashes IH]; intros b; [split; reflexivity|].
  cbn [forEach]. destruct (requestMissing_accepted h b) as [E1 E2].
  destruct (requestMissing RequestWitness_ok h b) as [b1 e]. cbn [fst snd] in *. subst e.
  destruct (IH b1) as [F1 F2]. split; [exact F1 | now rewrite F2].
Qed.

(** The second loop over a list of keys, with a peer that accepts. *)
Lemma retry_keys (keys : list (Hash * Z)) (b : @Batch Header) :
  exists b' sent,
    forEach (retryFailed RequestWitness_ok) keys b = (b', None)
    /\ witReqs b' = witReqs b ++ sent
    /\ (forall h p, (h, p) ∈ keys -> ShouldRetryAgain (lookupRetry b h p) = true ->
                    pageRequest h p ∈ sent)
    /\ (forall h p, ShouldRetryAgain (lookupRetry b' h p) =
                    if decide ((h, p) ∈ keys) then false
                    else ShouldRetryAgain (lookupRetry b h p)).
Proof.
  revert b. induction keys as [|[h p] keys IH]; intros b.
  - exists b, []. split; [reflexivity|]. split; [now rewrite app_nil_r|].
    split; [intros h p Hin; inversion Hin|]. intros h p.
    rewrite decide_False; [reflexivity | intros Hin; inversion Hin].
  - cbn [forEach]. unfold retryFailed at 1.
    destruct (ShouldRetryAgain (lookupRetry b h p)) eqn:Hflag.
    + rewrite (doWitnessRequest_accepted RequestWitness_ok peer_accepts).
      set (b1 := storeRetry _ h p _).
      destruct (IH b1) as (b' & sent & E & Hs & Hin & Hfl).
      exists b', (pageRequest h p :: sent). split; [exact E|].
      split; [rewrite Hs; subst b1; cbn [storeRetry withRequests witReqs];
              now rewrite <- app_assoc|].
      assert (Hlook : forall h' p', lookupRetry b1 h' p' =
                if decide ((h, p) = (h', p'))
                then {| FailCount := FailCount (lookupRetry b h p);
                        ShouldRetryAgain := false |}
                else lookupRetry b h' p').
      { intros h' p'. subst b1. rewrite lookupRetry_storeRetry.
        destruct (decide _); reflexivity. }
      split.
      * intros h' p' Hk Ht. destruct (decide ((h, p) = (h', p'))) as [[= <- <-]|Hne];
          [left|].
        apply elem_of_cons in Hk as [Heq | Hk]; [congruence|].
        right. apply Hin; [exact Hk|]. rewrite Hlook, decide_False by exact Hne. exact Ht.
      * intros h' p'. rewrite Hfl, Hlook.
        destruct (decide ((h, p) = (h', p'))) as [[= <- <-]|Hne].
        -- rewrite (decide_True (P := (h, p) ∈ (h, p) :: keys)) by left.
           destruct (decide _); reflexivity.
        -- destruct (decide ((h', p') ∈ keys)) as [Hk|Hk].
           ++ rewrite decide_True by now right. reflexivity.
           ++ rewrite decide_False; [reflexivity|].
              intros Hc. apply elem_of_cons in Hc as [Heq|Hc]; congruence.
    + set (b1 := storeRetry b h p (lookupRetry b h p)).
      destruct (IH b1) as (b' & sent & E & Hs & Hin & Hfl).
      assert (Hlook : forall h' p', lookupRetry b1 h' p' = lookupRetry b h' p').
      { intros h' p'. subst b1. rewrite lookupRetry_storeRetry.
        destruct (decide _) as [[= <- <-]|]; reflexivity. }
      exists b', sent. split; [exact E|]. split; [exact Hs|]. split.
      * intros h' p' Hk Ht. apply elem_of_cons in Hk as [[= -> ->] | Hk]; [congruence|].
        apply Hin; [exact Hk|]. now rewrite Hlook.
      * intros h' p'. rewrite Hfl, Hlook.
        destruct (decide ((h', p') ∈ keys)) as [Hk|Hk].
        -- rewrite decide_True by now right. reflexivity.
        -- destruct (decide ((h', p') ∈ (h, p) :: keys)) as [Hc|Hc]; [|reflexivity].
           apply elem_of_cons in Hc as [[= -> ->]|Hc]; [exact Hflag | contradiction].
Qed.

Lemma lookupRetry_not_recorded (b : @Batch Header) h p :
  (h, p) ∉ failed_keys (failedRequests b) -> lookupRetry b h p = zeroRetryCount.
Proof.
  intros Hnot. unfold lookupRetry.
  destruct (failedRequests b !! h) as [inner|] eqn:HF; cbn [from_option id];
    [|now rewrite lookup_empty].
  destruct (inner !! p) as [rc|] eqn:Hi; [|reflexivity].
  exfalso. apply Hnot, elem_of_failed_keys. eauto.
Qed.

(** X9. With a peer that accepts every request, a buildWitnessRequests pass
    returns nil, sends the request of every page flagged ShouldRetryAgain,
    and leaves no flag set: a failed page is sent again once per failure, not
    once per pass. *)
Theorem buildWitnessRequests_sends_pending_retries (hashes : list Hash) (b : @Batch Header) :
  exists b' sent,
    buildWitnessRequests RequestWitness_ok hashes b = (b', None)
    /\ witReqs b' = witReqs b ++ sent
    /\ (forall h p, ShouldRetryAgain (lookupRetry b h p) = true -> pageRequest h p ∈ sent)
    /\ (forall h p, ShouldRetryAgain (lookupRetry b' h p) = false).
Proof.
  unfold buildWitnessRequests.
  destruct (requestMissing_all_accepted hashes b) as [E1 E2].
  pose proof (forEach_appended (requestMissing RequestWitness_ok)
                (fun x b => forEach_appended _ (doWitnessRequest_appended x) _ b)
                hashes b) as (s1 & A1 & _).
  destruct (forEach (requestMissing RequestWitness_ok) hashes b) as [b1 e].
  cbn [fst snd] in *. subst e.
  destruct (retry_keys (failed_keys (failedRequests b1)) b1) as (b' & s2 & E & Hs & Hin & Hfl).
  assert (Hlook : forall h p, lookupRetry b1 h p = lookupRetry b h p).
  { intros h p. unfold lookupRetry. now rewrite E2. }
  exists b', (s1 ++ s2). split; [exact E|].
  split; [rewrite Hs, A1; now rewrite app_assoc|]. split.
  - intros h p Ht. apply elem_of_app. right. apply Hin; [|now rewrite Hlook].
    destruct (decide ((h, p) ∈ failed_keys (failedRequests b1))) as [Hk|Hk]; [exact Hk|].
    apply lookupRetry_not_recorded in Hk. rewrite <- Hlook, Hk in Ht. discriminate.
  - intros h p. rewrite Hfl. destruct (decide _) as [|Hk]; [reflexivity|].
    now rewrite (lookupRetry_not_recorded b1 h p Hk).
Qed.

(** The first loop on a batch that knows no page total, over hashes of which
    no page has been requested. *)
Lemma request_first_pages (hashes : list Hash) (b : @Batch Header) :
  NoDup hashes ->
  witTotalPages b = ∅ ->
  (forall h, h ∈ hashes -> witTotalRequest b !! h = None) ->
  exists total,
    forEach (requestMissing RequestWitness_ok) hashes b
    = (withRequests b (witReqs b ++ map (fun h => pageRequest h 0) hashes) total, None)
    /\ forall h, total !! h = if decide (h ∈ hashes) then Some 1 else witTotalRequest b !! h.
Proof.
  revert b. induction hashes as [|h hashes IH]; intros b Hnd Hpages Hnone.
  - exists (witTotalRequest b). cbn. rewrite app_nil_r. split; [destruct b; reflexivity|].
    intros h. rewrite decide_False; [reflexivity | intros Hin; inversion Hin].
  - apply NoDup_cons in Hnd as [Hnotin Hnd].
    cbn [forEach]. unfold requestMissing at 1.
    rewrite Hpages, lookup_empty, (Hnone h) by left. cbn [from_option id].
    change (Z.to_nat (DefaultPagesRequestPerWitness - 0)) with 1%nat.
    cbn [page_range forEach].
    rewrite (doWitnessRequest_accepted RequestWitness_ok peer_accepts).
    rewrite (Hnone h) by left. cbn [from_option id].
    change (0 <=? 0) with true. change (wrapU64 (0 + 1)) with 1. cbv iota.
    set (b1 := withRequests b _ _).
    destruct (IH b1 Hnd) as (total & E & Htot).
    + exact Hpages.
    + intros h' Hin. subst b1. cbn [withRequests witTotalRequest].
      rewrite lookup_insert_ne by (intros ->; contradiction). apply Hnone. now right.
    + exists total. rewrite E. split.
      * subst b1. unfold withRequests. cbn [witReqs witTotalPages failedRequests
          receivedWitPages reconstructedWitness map]. rewrite <- app_assoc. reflexivity.
      * intros h'. rewrite Htot. subst b1. cbn [withRequests witTotalRequest].
        destruct (decide (h' ∈ hashes)) as [Hin|Hin].
        -- rewrite decide_True by now right. reflexivity.
        -- destruct (decide (h' = h)) as [->|Hne].
           ++ rewrite lookup_insert_eq, decide_True by left. reflexivity.
           ++ rewrite lookup_insert_ne by congruence.
              rewrite decide_False; [reflexivity|].
              intros Hc. apply elem_of_cons in Hc as [?|?]; contradiction.
Qed.

(** X10. The first build pass of a batch for distinct hashes, with a peer that
    accepts: exactly page 0 of every hash is requested
    (DefaultPagesRequestPerWitness pages while the total is unknown), in the
    order of the hashes, and each hash is counted as having one page
    requested; nothing else is recorded. *)
Theorem startBatch_requests_first_page (hashes : list Hash) :
  NoDup hashes ->
  let b := @startBatch Header RequestWitness_ok hashes in
  witReqs b = map (fun h => pageRequest h 0) hashes
  /\ (forall h, witTotalRequest b !! h = if decide (h ∈ hashes) then Some 1 else None)
  /\ witTotalPages b = ∅ /\ failedRequests b = ∅
  /\ receivedWitPages b = ∅ /\ reconstructedWitness b = ∅.
Proof.
  intros Hnd. cbv zeta. unfold startBatch, spawnBuild, buildWitnessRequests.
  destruct (request_first_pages hashes emptyBatch Hnd eq_refl) as (total & E & Htot).
  { intros h _. apply lookup_empty. }
  rewrite E. cbn [withRequests failedRequests emptyBatch].
  unfold failed_keys. rewrite map_to_list_empty. cbn [mbind list_bind forEach fst].
  cbn [witReqs witTotalRequest witTotalPages failedRequests receivedWitPages
       reconstructedWitness app].
  repeat split. intros h. rewrite Htot. cbn [emptyBatch witTotalRequest].
  destruct (decide _); [reflexivity | apply lookup_empty].
Qed.

End BuildExtras.

(** * Further properties of the handling of a response *)

Section ReceiveExtras.

Context {Header : Type}.
Variable rlp_decode : list byte -> option (@extWitness Header).
Variable sort_Slice : (WitnessPageResponse -> WitnessPageResponse -> bool) ->
                      list WitnessPageResponse -> list WitnessPageResponse.
Variable RequestWitness_ok : WitnessPageRequest -> bool.

Abbreviation receiveP := (receivePage rlp_decode sort_Slice RequestWitness_ok).
Abbreviation receiveW := (receiveWitnessPage rlp_decode sort_Slice RequestWitness_ok).

(** The pages recorded for [hash]. *)
Definition recordedPages (b : @Batch Header) (hash : Hash) : list WitnessPageResponse :=
  default [] (receivedWitPages b !! hash).

Lemma len_nonempty {A} (l : list A) : l <> [] -> (len l =? 0) = false.
Proof. intros Hl. apply Z.eqb_neq. unfold len. destruct l; [contradiction|cbn; lia]. Qed.

Lemma len_snoc {A} (l : list A) x : len (l ++ [x]) = len l + 1.
Proof. unfold len. rewrite length_app. cbn. lia. Qed.

(** X11. An answer of an unexpected type to the request for one page: the call
    returns the error, counts one failure for that page and for no other, and
    leaves the page totals, the received pages and the reconstructed witnesses
    as they were, whatever the batch and whatever the peer does with the
    requests of the build pass that follows. *)
Theorem unexpected_response_counts_one_failure
    (hashes : list Hash) (r : WitnessPageRequest) (b : @Batch Header) :
  let res := receiveW hashes {| Request := [r]; Response := OtherRes |} b in
  snd res = Some ErrUnexpectedType
  /\ FailCount (lookupRetry (fst res) (req_Hash r) (req_Page r))
     = wrap64 (FailCount (lookupRetry b (req_Hash r) (req_Page r)) + 1)
  /\ (forall h p, (h, p) <> (req_Hash r, req_Page r) ->
        FailCount (lookupRetry (fst res) h p) = FailCount (lookupRetry b h p))
  /\ witTotalPages (fst res) = witTotalPages b
  /\ receivedWitPages (fst res) = receivedWitPages b
  /\ reconstructedWitness (fst res) = reconstructedWitness b.
Proof.
  cbv zeta. unfold receiveWitnessPage. cbn [Response Request fst snd].
  unfold recordFailure. cbn [fold_left].
  set (b1 := storeRetry b _ _ _).
  destruct (spawnBuild_sameBooks RequestWitness_ok hashes b1) as (S1 & S2 & S3 & S4).
  split; [reflexivity|]. rewrite S1, S2, S3.
  split; [|split; [|repeat split]].
  - rewrite S4. subst b1. rewrite lookupRetry_storeRetry, decide_True by reflexivity.
    reflexivity.
  - intros h p Hne. rewrite S4. subst b1.
    rewrite lookupRetry_storeRetry, decide_False by congruence. reflexivity.
Qed.

Hypothesis sort_ok : sort_Slice_spec sort_Slice.

Lemma sort_Slice_singleton page : sort_Slice page_less [page] = [page].
Proof.
  destruct (sort_ok [page]) as [Hp _]. now apply Permutation_singleton_l in Hp.
Qed.

(** X12. receivePage never looks the hash of a page up among the hashes of the
    batch, nor its index among the requests: a page with a payload that
    reports one page in total, for a hash of which nothing has been received,
    puts the witness its payload decodes to into the aggregate, whatever
    hashes were asked for. *)
Theorem single_page_of_any_hash_accepted
    (hashes : list Hash) (page : WitnessPageResponse) (b : @Batch Header)
    (wit : @Witness Header) :
  Data page <> [] ->
  receivedWitPages b !! resp_Hash page = None ->
  int_of_uint64 (TotalPages page) = 1 ->
  DecodeRLP rlp_decode newWitness (Data page) = (wit, None) ->
  let res := receiveP hashes page b in
  snd res = None
  /\ reconstructedWitness (fst res) !! resp_Hash page = Some wit
  /\ (resp_Hash page, wit) ∈ aggregate (fst res).
Proof.
  intros Hdata Hnone Htotal Hdec. cbv zeta.
  assert (G : snd (receiveP hashes page b) = None
              /\ reconstructedWitness (fst (receiveP hashes page b)) !! resp_Hash page
                 = Some wit).
  { unfold receivePage. rewrite (len_nonempty _ Hdata), Hnone, Htotal.
    cbn [from_option id app]. change (len [page] =? 1) with true. cbv iota.
    unfold reconstructWitness. rewrite sort_Slice_singleton.
    cbn [map concat]. rewrite app_nil_r, Hdec. split; [reflexivity|].
    cbn [fst]. match goal with
    | |- reconstructedWitness (spawnBuild _ _ ?b1) !! _ = _ =>
      destruct (spawnBuild_sameBooks RequestWitness_ok hashes b1) as (_ & _ & S3 & _);
      rewrite S3
    end.
    cbn [reconstructedWitness]. apply lookup_insert_eq. }
  destruct G as [G1 G2]. split; [exact G1|]. split; [exact G2|].
  unfold aggregate. apply elem_of_map_to_list. exact G2.
Qed.

(** The received pages after receivePage has handled a page with a payload. *)
Lemma receivePage_recorded (hashes : list Hash) (page : WitnessPageResponse)
    (b : @Batch Header) :
  Data page <> [] ->
  let b' := fst (receiveP hashes page b) in
  Permutation (recordedPages b' (resp_Hash page))
              (recordedPages b (resp_Hash page) ++ [page])
  /\ (forall h, h <> resp_Hash page -> receivedWitPages b' !! h = receivedWitPages b !! h)
  /\ (len (recordedPages b (resp_Hash page)) + 1 <> int_of_uint64 (TotalPages page) ->
      snd (receiveP hashes page b) = None
      /\ reconstructedWitness b' = reconstructedWitness b).
Proof.
  intros Hdata. cbv zeta. unfold receivePage, recordedPages.
  rewrite (len_nonempty _ Hdata).
  set (old := default [] (receivedWitPages b !! resp_Hash page)).
  rewrite len_snoc.
  destruct (len old + 1 =? int_of_uint64 (TotalPages page)) eqn:Hfull.
  - unfold reconstructWitness.
    destruct (sort_ok (old ++ [page])) as [Hperm _].
    apply Z.eqb_eq in Hfull.
    destruct (DecodeRLP rlp_decode newWitness _) as [wit [e|]]; cbn [fst snd].
    + cbn [receivedWitPages]. rewrite lookup_insert_eq. cbn [from_option id].
      split; [now symmetry|]. split; [|intros Hne; contradiction].
      intros h Hne. now rewrite lookup_insert_ne.
    + match goal with
      | |- context [spawnBuild _ _ ?b1] =>
        destruct (spawnBuild_sameBooks RequestWitness_ok hashes b1) as (_ & S2 & _ & _);
        rewrite S2
      end.
      cbn [receivedWitPages]. rewrite lookup_insert_eq. cbn [from_option id].
      split; [now symmetry|]. split; [|intros Hne; contradiction].
      intros h Hne. now rewrite lookup_insert_ne.
  - cbn [fst snd].
    match goal with
    | |- context [spawnBuild _ _ ?b1] =>
      destruct (spawnBuild_sameBooks RequestWitness_ok hashes b1) as (_ & S2 & S3 & _);
      rewrite S2, S3
    end.
    cbn [receivedWitPages reconstructedWitness]. rewrite lookup_insert_eq.
    cbn [from_option id]. split; [reflexivity|].
    split; [intros h Hne; now rewrite lookup_insert_ne|]. intros _. split; reflexivity.
Qed.

(** X13. Every page with a payload is recorded next to the pages recorded
    before it, also when a page with the same index is among them: pages are
    counted, not told apart. *)
Theorem every_page_with_payload_recorded
    (hashes : list Hash) (page : WitnessPageResponse) (b : @Batch Header) :
  Data page <> [] ->
  let b' := fst (receiveP hashes page b) in
  Permutation (recordedPages b' (resp_Hash page))
              (page :: recordedPages b (resp_Hash page))
  /\ forall h, h <> resp_Hash page -> receivedWitPages b' !! h = receivedWitPages b !! h.
Proof.
  intros Hdata. destruct (receivePage_recorded hashes page b Hdata) as (P1 & P2 & _).
  split; [|exact P2]. rewrite P1. symmetry. apply Permutation_cons_append.
Qed.

(** Pages for a hash of which at least as many pages are recorded as they
    report in total. *)
Lemma pages_beyond_total (hashes : list Hash) (hash : Hash) (total : Z)
    (pages : list WitnessPageResponse) (b : @Batch Header) :
  Forall (fun page => resp_Hash page = hash /\ TotalPages page = total) pages ->
  int_of_uint64 total <= len (recordedPages b hash) ->
  let res := forEach (receiveP hashes) pages b in
  snd res = None /\ reconstructedWitness (fst res) = reconstructedWitness b.
Proof.
  intros Hall. revert b. induction Hall as [|page pages [Hh Ht] _ IH]; intros b Hlen;
    [split; reflexivity|].
  cbv zeta. cbn [forEach].
  destruct (Data page) as [|x data] eqn:Hdata.
  - assert (E : receiveP hashes page b = (b, None)).
    { unfold receivePage. rewrite Hdata. reflexivity. }
    rewrite E. apply IH, Hlen.
  - assert (Hne : Data page <> []) by (rewrite Hdata; discriminate).
    destruct (receivePage_recorded hashes page b Hne) as (P1 & _ & P3).
    rewrite Hh, Ht in *.
    destruct P3 as [E1 E2]; [lia|].
    destruct (receiveP hashes page b) as [b1 e]. cbn [fst snd] in *. subst e.
    destruct (IH b1) as [F1 F2].
    + unfold len. rewrite (Permutation_length P1), length_app. cbn [length].
      unfold len in Hlen. lia.
    + cbv zeta in F1, F2. split; [exact F1 | now rewrite F2].
Qed.

(** X14. Once as many pages are recorded for a hash as its pages report in
    total, no further page for it, duplicates and late arrivals alike,
    reconstructs a witness: the count has passed the total and the pages are
    never recorded anew. *)
Theorem pages_beyond_total_never_complete
    (hashes : list Hash) (hash : Hash) (total : Z)
    (pages : list WitnessPageResponse) (b : @Batch Header) :
  Forall (fun page => resp_Hash page = hash /\ TotalPages page = total) pages ->
  int_of_uint64 total <= len (recordedPages b hash) ->
  let res := forEach (receiveP hashes) pages b in
  snd res = None /\ reconstructedWitness (fst res) = reconstructedWitness b.
Proof. apply pages_beyond_total. Qed.

(** X15. When the page that completes the count arrives and the concatenated
    payloads do not decode, receivePage returns the error with the pages left
    recorded (sorted), learns no total and starts no build pass; and no page
    that arrives for the hash afterwards with the same total ever
    reconstructs the witness, so requesting the pages again cannot repair it. *)
Theorem decode_failure_is_final
    (hashes : list Hash) (page : WitnessPageResponse) (b : @Batch Header)
    (later : list WitnessPageResponse) :
  Data page <> [] ->
  len (recordedPages b (resp_Hash page)) + 1 = int_of_uint64 (TotalPages page) ->
  rlp_decode (concat (map Data (sort_Slice page_less
                                  (recordedPages b (resp_Hash page) ++ [page])))) = None ->
  Forall (fun pg => resp_Hash pg = resp_Hash page /\ TotalPages pg = TotalPages page)
         later ->
  let res := receiveP hashes page b in
  snd res = Some ErrRLP
  /\ witReqs (fst res) = witReqs b
  /\ witTotalPages (fst res) = witTotalPages b
  /\ reconstructedWitness (fst res) = reconstructedWitness b
  /\ recordedPages (fst res) (resp_Hash page)
     = sort_Slice page_less (recordedPages b (resp_Hash page) ++ [page])
  /\ reconstructedWitness (fst (forEach (receiveP hashes) later (fst res)))
     = reconstructedWitness b.
Proof.
  intros Hdata Hfull Hdec Hlater. cbv zeta.
  assert (G : receiveP hashes page b =
              ({| witReqs := witReqs b;
                  witTotalPages := witTotalPages b;
                  witTotalRequest := witTotalRequest b;
                  failedRequests := failedRequests b;
                  receivedWitPages :=
                    <[resp_Hash page :=
                        sort_Slice page_less (recordedPages b (resp_Hash page) ++ [page])]>
                      (receivedWitPages b);
                  reconstructedWitness := reconstructedWitness b |}, Some ErrRLP)).
  { unfold receivePage. rewrite (len_nonempty _ Hdata).
    fold (recordedPages b (resp_Hash page)). rewrite len_snoc, Hfull, Z.eqb_refl.
    unfold reconstructWitness, DecodeRLP. rewrite Hdec. reflexivity. }
  rewrite G. cbn [fst snd witReqs witTotalPages reconstructedWitness].
  repeat split.
  - unfold recordedPages. cbn [receivedWitPages]. now rewrite lookup_insert_eq.
  - match goal with
    | |- reconstructedWitness (fst (forEach _ later ?b1)) = _ =>
      destruct (pages_beyond_total hashes (resp_Hash page) (TotalPages page) later b1 Hlater)
        as [_ E]
    end; [|exact E].
    unfold recordedPages. cbn [receivedWitPages]. rewrite lookup_insert_eq.
    cbn [from_option id]. destruct (sort_ok (recordedPages b (resp_Hash page) ++ [page]))
      as [Hperm _].
    pose proof (Permutation_length Hperm) as Hl. rewrite length_app in Hl.
    cbn [length] in Hl. unfold len, recordedPages in *. lia.
Qed.

End ReceiveExtras.

(** * Further properties of Close and of the semaphore *)

Section CloseExtras.

Context {witRequest : Type}.
Variable witRequest_Close : witRequest -> witRequest * option error.

Lemma closeAll_first_error (l1 l2 : list witRequest) (r r' : witRequest) (e : error) :
  Forall (fun q => snd (witRequest_Close q) = None) l1 ->
  witRequest_Close r = (r', Some e) ->
  closeAll witRequest_Close (l1 ++ r :: l2)
  = (map (fun q => fst (witRequest_Close q)) l1 ++ r' :: l2, Some e).
Proof.
  intros Hall Hr. induction Hall as [|q l1 Hq _ IH]; cbn [app map closeAll].
  - rewrite Hr. reflexivity.
  - destruct (witRequest_Close q) as [q' err]. cbn [snd fst] in *. subst err.
    rewrite IH. reflexivity.
Qed.

(** X16. Close stops at the first wit request that fails to close: the Cancel
    channel is closed and the requests before the failing one are closed, the
    error of the failing one is returned, and the requests after it are left
    as they were, never closed. *)
Theorem Close_stops_at_first_error
    (l1 l2 : list witRequest) (r r' : witRequest) (e : error) :
  Forall (fun q => snd (witRequest_Close q) = None) l1 ->
  witRequest_Close r = (r', Some e) ->
  Close witRequest_Close
        {| eth_Request := {| Cancel := ChanOpen |}; wit_Requests := l1 ++ r :: l2 |}
  = Returns ({| eth_Request := {| Cancel := ChanClosed |};
                wit_Requests := map (fun q => fst (witRequest_Close q)) l1 ++ r' :: l2 |},
             Some e).
Proof.
  intros Hall Hr. unfold Close. cbn [eth_Request Cancel wit_Requests].
  rewrite (closeAll_first_error l1 l2 r r' e Hall Hr). reflexivity.
Qed.

End CloseExtras.

Lemma reachable_permits_accounted (s : Sched) : reachable s -> permits_accounted s.
Proof.
  induction 1 as [|s s' _ IH Hstep].
  - split; [reflexivity | vm_compute; discriminate].
  - eapply step_permits_accounted; eassumption.
Qed.

Lemma inFlight_parts (s : Sched) :
  0 <= len (atPeer s) /\ 0 <= len (forwarding s) /\ 0 <= len (witReqResCh s)
  /\ 0 <= match handling s with Some _ => 1 | None => 0 end.
Proof. unfold len. destruct (handling s); lia. Qed.

(** X17. The fan-in channel never fills: in every reachable state it buffers at
    most DefaultConcurrentRequestsPerPeer (5) responses, fewer than its
    capacity DefaultConcurrentResponsesHandled (10), so the send
    `witReqResCh <- ...` of a forwarder never blocks. *)
Theorem fan_in_never_blocks (s : Sched) :
  reachable s ->
  len (witReqResCh s) <= DefaultConcurrentRequestsPerPeer
  /\ len (witReqResCh s) < DefaultConcurrentResponsesHandled.
Proof.
  intros Hr. destruct (reachable_permits_accounted s Hr) as [Heq Hle].
  pose proof (inFlight_parts s) as (A & B & C & D).
  unfold inFlight, DefaultConcurrentRequestsPerPeer, DefaultConcurrentResponsesHandled in *.
  lia.
Qed.

Lemma step_refused_mono s s' : step s s' -> (refused s <= refused s')%nat.
Proof. destruct 1; cbn [refused]; lia. Qed.

(** X18. The permit of a refused request is never given back: once
    RequestWitness has returned an error [refused s] times, at most
    DefaultConcurrentRequestsPerPeer - refused s sub-requests are in flight in
    any state the batch reaches afterwards. *)
Theorem refused_permits_never_return (s s' : Sched) :
  reachable s -> rtc step s s' ->
  (refused s <= refused s')%nat
  /\ inFlight s' <= DefaultConcurrentRequestsPerPeer - Z.of_nat (refused s).
Proof.
  intros Hr Hsteps.
  assert (G : reachable s' /\ (refused s <= refused s')%nat).
  { induction Hsteps as [s|s s1 s2 Hstep _ IH]; [split; [exact Hr | lia]|].
    destruct IH as [R2 M2]; [eapply reachable_step; eassumption|].
    split; [exact R2|]. pose proof (step_refused_mono s s1 Hstep). lia. }
  destruct G as [Hr' Hm]. split; [exact Hm|].
  destruct (reachable_permits_accounted s' Hr') as [Heq Hle]. lia.
Qed.

(** * Further properties of a batch against a peer *)

Section RunExtras.

Context {Header : Type}.
Variable rlp_decode : list byte -> option (@extWitness Header).
Variable sort_Slice : (WitnessPageResponse -> WitnessPageResponse -> bool) ->
                      list WitnessPageResponse -> list WitnessPageResponse.
Variable RequestWitness_ok : WitnessPageRequest -> bool.
Variable hash : Hash.
Variable chunks : list (list byte).
Variable decoded : @Witness Header.

Hypothesis peer_accepts : forall r, RequestWitness_ok r = true.
Hypothesis sort_ok : sort_Slice_spec sort_Slice.
Hypothesis chunks_nonempty : Forall (fun c => c <> []) chunks.
Hypothesis some_chunk : chunks <> [].
Hypothesis chunks_int : len chunks <= max_int64.
Hypothesis chunks_decode :
  DecodeRLP rlp_decode newWitness (concat chunks) = (decoded, None).

Abbreviation reachableRun :=
  (reachableSys rlp_decode sort_Slice RequestWitness_ok hash chunks).

Lemma reachableRun_invariant s :
  reachableRun s -> invariant hash chunks decoded s /\ requestsCounted hash s.
Proof.
  exact (reachable_invariant rlp_decode sort_Slice RequestWitness_ok hash chunks decoded
           peer_accepts sort_ok chunks_nonempty some_chunk chunks_int chunks_decode s).
Qed.



(** X21. With such a peer every page is received at most once, only pages of
    the witness are received, and the witness is reconstructed exactly when
    all its pages have been received. *)
Theorem witness_reconstructed_iff_all_pages (s : @Sys Header) :
  reachableRun s ->
  NoDup (receivedPages hash (batch s))
  /\ (forall pg, pg ∈ receivedPages hash (batch s) -> pg ∈ pagesOf hash chunks)
  /\ (length (receivedPages hash (batch s)) = length chunks ->
      reconstructedWitness (batch s) !! hash = Some decoded)
  /\ (length (receivedPages hash (batch s)) <> length chunks ->
      reconstructedWitness (batch s) !! hash = None).
Proof.
  intros Hr. destruct (reachableRun_invariant s Hr) as [I _].
  split; [exact (inv_received_nodup _ _ _ s I)|].
  split; [intros pg Hpg; now destruct (inv_received _ _ _ s I pg Hpg)|].
  rewrite (inv_witness _ _ _ s I).
  split; intros Hl; [now rewrite decide_True | now rewrite decide_False].
Qed.


End RunExtras.

(** ** The further properties on concrete data *)

(** X1, at [witnessA], with a receiver that held [witnessB]. *)
Lemma fromExtWitness_toExtWitness_witness :
  fromExtWitness witnessB (toExtWitness Ref.range_order witnessA) = witnessA.
Proof.
  apply (fromExtWitness_toExtWitness Ref.range_order witnessB witnessA). reflexivity.
Defined.


(** A configuration with a level gzip refuses. *)
Definition badLevelConfig : CompressionConfig :=
  {| Enabled := true; Threshold := 10; CompressionLevel := 10; UseDeduplication := true |}.

(** X4, at [witnessA] under [badLevelConfig], from zeroed metrics. *)
Lemma EncodeCompressed_invalid_level_witness :
  refEncode badLevelConfig zeroMetrics witnessA ([] : list byte)
  = (witnessA,
     {| compressionCount := 0; uncompressedCount := 0; decompressionCount := 0;
        compressionRatio := 0; totalOriginalSize := 72; totalCompressedSize := 0;
        spaceSavedBytes := 0 |},
     [], Some (ErrGzipLevel 10)).
Proof.
  destruct (EncodeCompressed_invalid_level Ref.range_order Ref.rlp_encode
              Ref.gzip_compress Ref.ratio_percent badLevelConfig zeroMetrics witnessA
              ([] : list byte)) as [E _].
  - reflexivity.
  - vm_compute. reflexivity.
  - reflexivity.
  - unfold refEncode. rewrite E. vm_compute. reflexivity.
Defined.



Lemma accepting_all : forall r, accepting r = true.
Proof. reflexivity. Qed.

(** The batch after page 0 of [witnessA] has arrived and page 1 has failed
    once, before the build pass that retries it. *)
Definition pendingRetry : @Batch Ref.Header :=
  storeRetry (batch (refRun [(0%nat, packet page0)])) hashH 1
             {| FailCount := 1; ShouldRetryAgain := true |}.

(** X9, at [pendingRetry]. *)
Lemma buildWitnessRequests_sends_pending_retries_witness :
  exists b' sent,
    buildWitnessRequests accepting [hashH] pendingRetry = (b', None)
    /\ witReqs b' = witReqs pendingRetry ++ sent
    /\ (forall h p, ShouldRetryAgain (lookupRetry pendingRetry h p) = true ->
                    pageRequest h p ∈ sent)
    /\ (forall h p, ShouldRetryAgain (lookupRetry b' h p) = false).
Proof.
  exact (buildWitnessRequests_sends_pending_retries accepting accepting_all
           [hashH] pendingRetry).
Defined.

(** X10, at two hashes. *)
Lemma startBatch_requests_first_page_witness :
  let b := @startBatch Ref.Header accepting [hashH; 7%N] in
  witReqs b = [pageRequest hashH 0; pageRequest 7%N 0]
  /\ (forall h, witTotalRequest b !! h
                = if decide (h ∈ [hashH; 7%N]) then Some 1 else None)
  /\ witTotalPages b = ∅ /\ failedRequests b = ∅
  /\ receivedWitPages b = ∅ /\ reconstructedWitness b = ∅.
Proof.
  apply (@startBatch_requests_first_page Ref.Header accepting accepting_all [hashH; 7%N]).
  apply NoDup_cons. split; [|apply NoDup_singleton].
  intros Hin. apply list_elem_of_singleton in Hin. discriminate Hin.
Defined.

(** The whole of [witnessA] in one page, for a hash nobody asked for. *)
Definition strayPage : WitnessPageResponse :=
  {| Data := bytesA; resp_Hash := 999%N; Page := 5; TotalPages := 1 |}.

(** X12, at [strayPage] arriving in a batch for [hashH]. *)
Lemma single_page_of_any_hash_accepted_witness :
  let res := receivePage Ref.rlp_decode Ref.sort_Slice accepting [hashH] strayPage
               (startBatch accepting [hashH]) in
  snd res = None
  /\ reconstructedWitness (fst res) !! 999%N = Some witnessA
  /\ (999%N, witnessA) ∈ aggregate (fst res).
Proof.
  apply (single_page_of_any_hash_accepted Ref.rlp_decode Ref.sort_Slice accepting
           Ref_sort_Slice_spec [hashH] strayPage (startBatch accepting [hashH]) witnessA).
  - vm_compute. discriminate.
  - vm_compute. reflexivity.
  - reflexivity.
  - vm_compute. reflexivity.
Defined.

(** X13, at page 0 of [witnessA] arriving a second time. *)
Lemma every_page_with_payload_recorded_witness :
  let b := batch (refRun [(0%nat, packet page0)]) in
  let b' := fst (receivePage Ref.rlp_decode Ref.sort_Slice accepting [hashH] page0 b) in
  Permutation (recordedPages b' hashH) (page0 :: recordedPages b hashH)
  /\ forall h, h <> hashH -> receivedWitPages b' !! h = receivedWitPages b !! h.
Proof.
  apply (every_page_with_payload_recorded Ref.rlp_decode Ref.sort_Slice accepting
           Ref_sort_Slice_spec [hashH] page0 (batch (refRun [(0%nat, packet page0)]))).
  vm_compute. discriminate.
Defined.

(** The batch in which all three pages of [witnessA] have arrived. *)
Definition completeBatch : @Batch Ref.Header :=
  batch (refRun [(0%nat, packet page0); (0%nat, packet page1); (0%nat, packet page2)]).

(** X14, at pages 0 and 2 arriving again in [completeBatch]. *)
Lemma pages_beyond_total_never_complete_witness :
  let res := forEach (receivePage Ref.rlp_decode Ref.sort_Slice accepting [hashH])
                     [page0; page2] completeBatch in
  snd res = None /\ reconstructedWitness (fst res) = reconstructedWitness completeBatch.
Proof.
  apply (pages_beyond_total_never_complete Ref.rlp_decode Ref.sort_Slice accepting
           Ref_sort_Slice_spec [hashH] hashH 3 [page0; page2] completeBatch).
  - repeat constructor.
  - vm_compute. discriminate.
Defined.

(** A page that claims to be the whole witness and holds one stray byte. *)
Definition garbledPage : WitnessPageResponse :=
  {| Data := [xff]; resp_Hash := hashH; Page := 0; TotalPages := 1 |}.

(** X15, at [garbledPage] followed by the genuine whole witness in one page. *)
Lemma decode_failure_is_final_witness :
  let b := startBatch accepting [hashH] in
  let later := [{| Data := bytesA; resp_Hash := hashH; Page := 0; TotalPages := 1 |}] in
  let res := receivePage Ref.rlp_decode Ref.sort_Slice accepting [hashH] garbledPage b in
  snd res = Some ErrRLP
  /\ witReqs (fst res) = witReqs b
  /\ witTotalPages (fst res) = witTotalPages b
  /\ reconstructedWitness (fst res) = reconstructedWitness b
  /\ recordedPages (fst res) (resp_Hash garbledPage)
     = Ref.sort_Slice page_less (recordedPages b (resp_Hash garbledPage) ++ [garbledPage])
  /\ reconstructedWitness
       (fst (forEach (receivePage Ref.rlp_decode Ref.sort_Slice accepting [hashH])
                     later (fst res)))
     = reconstructedWitness b.
Proof.
  apply (decode_failure_is_final Ref.rlp_decode Ref.sort_Slice accepting
           Ref_sort_Slice_spec [hashH] garbledPage (startBatch accepting [hashH])
           [{| Data := bytesA; resp_Hash := hashH; Page := 0; TotalPages := 1 |}]).
  - discriminate.
  - vm_compute. reflexivity.
  - vm_compute. reflexivity.
  - repeat constructor.
Defined.

(** X16, at three wit requests of which the second fails to close. *)
Lemma Close_stops_at_first_error_witness :
  Close Ref.witRequest_Close
        {| eth_Request := {| Cancel := ChanOpen |}; wit_Requests := [0; 7; 0] |}
  = Returns ({| eth_Request := {| Cancel := ChanClosed |}; wit_Requests := [0; 7; 0] |},
             Some (ErrWitClose 7)).
Proof.
  apply (Close_stops_at_first_error Ref.witRequest_Close [0] [0] 7 7 (ErrWitClose 7)).
  - repeat constructor.
  - reflexivity.
Defined.

(** X17, at the state with one request at the peer. *)
Lemma fan_in_never_blocks_witness :
  len (witReqResCh schedOneAtPeer) <= DefaultConcurrentRequestsPerPeer
  /\ len (witReqResCh schedOneAtPeer) < DefaultConcurrentResponsesHandled.
Proof. exact (fan_in_never_blocks schedOneAtPeer schedOneAtPeer_reachable). Defined.

(** A state in which one request has been refused. *)
Definition schedOneRefused : Sched :=
  {| witReqSem := [1]; acquired := 0; refused := 1; atPeer := [];
     forwarding := []; witReqResCh := []; handling := None |}.

Lemma schedOneRefused_reachable : reachable schedOneRefused.
Proof.
  pose (s1 := {| witReqSem := [1]; acquired := 1; refused := 0; atPeer := [];
                 forwarding := []; witReqResCh := []; handling := None |}).
  apply (reachable_step s1).
  - apply (reachable_step initSched); [apply reachable_init|].
    apply (step_acquire initSched). vm_compute. reflexivity.
  - exact (step_refuse s1 0 eq_refl).
Qed.

(** X18, at [schedOneRefused] and the state one acquire later. *)
Lemma refused_permits_never_return_witness :
  let s' := {| witReqSem := [1; 1]; acquired := 1; refused := 1; atPeer := [];
               forwarding := []; witReqResCh := []; handling := None |} in
  (refused schedOneRefused <= refused s')%nat
  /\ inFlight s' <= DefaultConcurrentRequestsPerPeer - Z.of_nat (refused schedOneRefused).
Proof.
  apply (refused_permits_never_return schedOneRefused _ schedOneRefused_reachable).
  apply rtc_once. apply (step_acquire schedOneRefused). vm_compute. reflexivity.
Defined.

Lemma chunksA_nonempty : Forall (fun c : list byte => c <> []) chunksA.
Proof. repeat (apply List.Forall_cons; [vm_compute; discriminate|]). apply List.Forall_nil. Qed.

Lemma chunksA_some : chunksA <> [].
Proof. vm_compute. discriminate. Qed.

Lemma chunksA_int : len chunksA <= max_int64.
Proof. vm_compute. discriminate. Qed.

Lemma chunksA_decode :
  DecodeRLP Ref.rlp_decode newWitness (concat chunksA) = (witnessA, None).
Proof. vm_compute. reflexivity. Qed.

Lemma twiceFailed_reachable :
  reachableSys Ref.rlp_decode Ref.sort_Slice accepting hashH chunksA (refRun twiceFailed).
Proof. apply reachableSys_runBatch. exact twiceFailed_served. Qed.



(** X21, at the same run. *)
Lemma witness_reconstructed_iff_all_pages_witness :
  NoDup (receivedPages hashH (batch (refRun twiceFailed)))
  /\ (forall pg, pg ∈ receivedPages hashH (batch (refRun twiceFailed)) ->
                 pg ∈ pagesOf hashH chunksA)
  /\ (length (receivedPages hashH (batch (refRun twiceFailed))) = length chunksA ->
      reconstructedWitness (batch (refRun twiceFailed)) !! hashH = Some witnessA)
  /\ (length (receivedPages hashH (batch (refRun twiceFailed))) <> length chunksA ->
      reconstructedWitness (batch (refRun twiceFailed)) !! hashH = None).
Proof.
  exact (witness_reconstructed_iff_all_pages Ref.rlp_decode Ref.sort_Slice accepting hashH
           chunksA witnessA accepting_all Ref_sort_Slice_spec chunksA_nonempty chunksA_some
           chunksA_int chunksA_decode (refRun twiceFailed) twiceFailed_reachable).
Defined.

